(** * Shenandoah heap region counters

    A shallow embedding of
    [src/hotspot/share/gc/shenandoah/shenandoahHeapRegionCounters.cpp]:
    the status encoder ([encode_phase], [get_generation_shift],
    [encode_heap_status]), the per-region data word built in the loop of
    [ShenandoahHeapRegionCounters::update], the constructor and [update]
    itself, with the perf counters and the log file as explicit state. *)

From Stdlib Require Import ZArith Lia Bool String.
From stdpp Require Import base list.

Local Open Scope Z_scope.

(** ** Outcomes of VM code

    HotSpot code either returns or takes the VM down.  [assert] is compiled
    only into debug builds, [ShouldNotReachHere] into every build.  The other
    faults stand for behaviour the C++ standard leaves undefined and for a
    loop that never exits. *)

Inductive fault : Type :=
  | AssertFailed (msg : string)
  | ShouldNotReachHere
  | NullPointer
  | OutOfBounds
  | DivideByZero
  | Diverges.

Inductive outcome (A : Type) : Type :=
  | Ret (a : A)
  | Abort (f : fault).
Arguments Ret {A} a.
Arguments Abort {A} f.

#[global] Instance outcome_ret : MRet outcome := @Ret.
#[global] Instance outcome_bind : MBind outcome := fun A B k m =>
  match m with
  | Ret a => k a
  | Abort f => Abort f
  end.

Inductive build : Type := Debug | Product.

Definition assert (b : build) (cond : bool) (msg : string) : outcome unit :=
  match b with
  | Debug => if cond then Ret tt else Abort (AssertFailed msg)
  | Product => Ret tt
  end.

(** ** The collector as the sampler sees it *)

Inductive GenerationMode : Type := YOUNG | OLD | GLOBAL.

(** One heap region: the nine queries the sampling loop makes.  The six byte
    counts are [size_t], [age] is a [uint], [affiliation] and [state_ordinal]
    are enum ordinals. *)
Record ShenandoahHeapRegion : Type := {
  used : Z;
  get_live_data_bytes : Z;
  get_tlab_allocs : Z;
  get_gclab_allocs : Z;
  get_plab_allocs : Z;
  get_shared_allocs : Z;
  age : Z;
  affiliation : Z;
  state_ordinal : Z
}.

(** The queries of [ShenandoahHeap] used in this file.  [active_generation]
    is a pointer, [None] being [NULL]; [mode_is_generational] is
    [heap->mode()->is_generational()]. *)
Record ShenandoahHeap : Type := {
  is_idle : bool;
  is_evacuation_in_progress : bool;
  is_update_refs_in_progress : bool;
  is_concurrent_mark_in_progress : bool;
  is_concurrent_old_mark_in_progress : bool;
  is_degenerated_gc_in_progress : bool;
  is_full_gc_in_progress : bool;
  mode_is_generational : bool;
  active_generation : option GenerationMode;
  regions : list ShenandoahHeapRegion
}.

Definition num_regions (heap : ShenandoahHeap) : Z :=
  Z.of_nat (length (regions heap)).

Definition get_region (heap : ShenandoahHeap) (i : Z)
  : option ShenandoahHeapRegion :=
  if (0 <=? i) && (i <? num_regions heap) then regions heap !! Z.to_nat i
  else None.

(** ** The status encoder *)

Section StatusEncoder.

Variable bld : build.

Definition encode_phase (heap : ShenandoahHeap) : outcome Z :=
  if is_evacuation_in_progress heap then Ret 2
  else if is_update_refs_in_progress heap then Ret 3
  else if is_concurrent_mark_in_progress heap then Ret 1
  else
    _ ← assert bld (is_idle heap) "What is it doing?";
    Ret 0.

(** The [default:] arm of the switch ([ShouldNotReachHere(); return -1])
    has no counterpart: the enum has the three values below. *)
Definition get_generation_shift (generation : GenerationMode) : Z :=
  match generation with
  | GLOBAL => 0
  | OLD => 2
  | YOUNG => 4
  end.

Definition flag_bit (b : bool) (pos : Z) (status : Z) : Z :=
  if b then Z.lor status (Z.shiftl 1 pos) else status.

(** The [log_develop_trace] line writes to the VM log only and is left
    out. *)
Definition encode_heap_status (heap : ShenandoahHeap) : outcome Z :=
  if is_idle heap then Ret 0
  else
    status ←
      (if negb (mode_is_generational heap) then encode_phase heap
       else
         phase ← encode_phase heap;
         match active_generation heap with
         | None =>
             (* the assert in debug builds, the dereference in product ones *)
             _ ← assert bld false "Expected active generation in this mode.";
             Abort NullPointer
         | Some generation =>
             let shift := get_generation_shift generation in
             let status := Z.lor 0 (Z.shiftl (Z.land phase 3) shift) in
             Ret (flag_bit (is_concurrent_old_mark_in_progress heap) 2 status)
         end);
    let status := flag_bit (is_degenerated_gc_in_progress heap) 6 status in
    let status := flag_bit (is_full_gc_in_progress heap) 7 status in
    Ret status.

End StatusEncoder.

(** ** Fixed-width integers

    On the 64-bit targets [size_t] and [jlong] are 64 bits wide and [uint]
    is 32 bits wide; a value of each is the [Z] in its range, and a
    conversion reduces modulo the width. *)

Definition u64 (x : Z) : Z := x mod 2 ^ 64.
Definition jlong (x : Z) : Z := (x + 2 ^ 63) mod 2 ^ 64 - 2 ^ 63.
Definition uint (x : Z) : Z := x mod 2 ^ 32.

(** [for (uint i = start; i < n; i++) body], with [n] a [size_t].  The index
    wraps at 32 bits, so the loop exits only when [n] fits a [uint]; [fuel]
    bounds the iterations of the model. *)
Fixpoint uint_for {St : Type} (fuel : nat) (n i : Z)
    (body : Z -> St -> outcome St) (s : St) : outcome St :=
  match fuel with
  | O => Abort Diverges
  | S fuel' =>
      if i <? n then
        s' ← body i s;
        uint_for fuel' n (uint (i + 1)) body s'
      else Ret s
  end.

(** ** The layout of the region word

    The masks and shifts are [static const jlong] members declared in
    [shenandoahHeapRegionCounters.hpp]. *)

Record Layout : Type := {
  PERCENT_MASK : Z;
  AGE_MASK : Z;
  AFFILIATION_MASK : Z;
  STATUS_MASK : Z;
  USED_SHIFT : Z;
  LIVE_SHIFT : Z;
  TLAB_SHIFT : Z;
  GCLAB_SHIFT : Z;
  SHARED_SHIFT : Z;
  PLAB_SHIFT : Z;
  AGE_SHIFT : Z;
  AFFILIATION_SHIFT : Z;
  STATUS_SHIFT : Z
}.

(** Modelled from the spec: the header that declares the masks and shifts is
    not among the sources.  The spec asks for six ratio fields of a fixed
    width (7 bits, covering 0 to 100), then age, then a 2-bit affiliation,
    then the state ordinal, at disjoint offsets of one 64-bit word; this is
    such a table. *)
Definition reference_layout : Layout := {|
  PERCENT_MASK := 0x7f;
  AGE_MASK := 0x1f;
  AFFILIATION_MASK := 0x03;
  STATUS_MASK := 0x3f;
  USED_SHIFT := 0;
  LIVE_SHIFT := 7;
  TLAB_SHIFT := 14;
  GCLAB_SHIFT := 21;
  SHARED_SHIFT := 28;
  PLAB_SHIFT := 35;
  AGE_SHIFT := 51;
  AFFILIATION_SHIFT := 56;
  STATUS_SHIFT := 58
|}.

(** The width of the field a mask selects, and the lanes of a layout as
    (shift, mask) pairs in the order [update] fills them. *)
Definition width (mask : Z) : Z := Z.log2 (mask + 1).

Definition is_mask (mask : Z) : bool :=
  (0 <=? mask) && (mask + 1 =? 2 ^ width mask).

Definition lanes (L : Layout) : list (Z * Z) :=
  [ (USED_SHIFT L, PERCENT_MASK L); (LIVE_SHIFT L, PERCENT_MASK L);
    (TLAB_SHIFT L, PERCENT_MASK L); (GCLAB_SHIFT L, PERCENT_MASK L);
    (PLAB_SHIFT L, PERCENT_MASK L); (SHARED_SHIFT L, PERCENT_MASK L);
    (AGE_SHIFT L, AGE_MASK L); (AFFILIATION_SHIFT L, AFFILIATION_MASK L);
    (STATUS_SHIFT L, STATUS_MASK L) ].

Definition lane_ok (l : Z * Z) : bool :=
  (0 <=? l.1) && (l.1 + width l.2 <=? 64) && is_mask l.2.

Definition apart (a b : Z * Z) : bool :=
  (a.1 + width a.2 <=? b.1) || (b.1 + width b.2 <=? a.1).

Fixpoint pairwise {A : Type} (R : A -> A -> bool) (l : list A) : bool :=
  match l with
  | [] => true
  | x :: l' => forallb (R x) l' && pairwise R l'
  end.

(** Every mask is a run of low one bits, every lane lies inside the 64-bit
    word, and no two lanes share a bit. *)
Definition layout_ok (L : Layout) : bool :=
  forallb lane_ok (lanes L) && pairwise apart (lanes L).

(** Decoding, as the spec words it: a field is read back from a word by its
    shift and its mask.  The sources contain no decoder. *)
Definition decode_field (word shift mask : Z) : Z :=
  Z.land (Z.shiftr word shift) mask.

(** ** The sampler *)

Record Flags : Type := {
  UsePerfData : bool;
  ShenandoahRegionSampling : bool;
  ShenandoahLogRegionSampling : bool;
  ShenandoahRegionSamplingRate : Z
}.

(** What one call of [write_snapshot] receives: the values of the region
    counters, of the timestamp and of the status, the region count and the
    region size. *)
Record Snapshot : Type := {
  snap_regions : list Z;
  snap_timestamp : Z;
  snap_status : Z;
  snap_num_regions : Z;
  snap_region_size : Z
}.

(** The writes a call makes, in program order. *)
Inductive event : Type :=
  | SetStatus (v : Z)
  | SetTimestamp (v : Z)
  | LockHeap
  | SetRegionData (i : Z) (v : Z)
  | WriteSnapshot (s : Snapshot)
  | UnlockHeap.

(** The object.  A perf variable is the [jlong] it holds, [None] where the
    constructor never created it; [_regions_data] is the array of region
    variables; [_log_file] is the list of snapshots appended so far;
    [max_regions] and [region_size] are the two perf constants.  [history]
    is a ghost field: every write, oldest first. *)
Record ShenandoahHeapRegionCounters : Type := {
  _last_sample_millis : Z;
  _timestamp : option Z;
  _status : option Z;
  _regions_data : list Z;
  _log_file : option (list Snapshot);
  max_regions : option Z;
  region_size : option Z;
  history : list event
}.

(** What a call of [update] reads from outside the object: the clock
    [nanos_to_millis(os::javaTimeNanos())], [os::elapsed_counter()] and the
    heap. *)
Record World : Type := {
  current_millis : Z;
  elapsed_counter : Z;
  the_heap : ShenandoahHeap
}.

(** [update] returns nothing; the tag tells which way the call went. *)
Inductive SampleOutcome : Type := Skipped | Sampled.

(** A store to [_last_sample_millis]. *)
Definition store_last_sample_millis (v : Z) (c : ShenandoahHeapRegionCounters)
  : ShenandoahHeapRegionCounters :=
  {| _last_sample_millis := v;
     _timestamp := _timestamp c;
     _status := _status c;
     _regions_data := _regions_data c;
     _log_file := _log_file c;
     max_regions := max_regions c;
     region_size := region_size c;
     history := history c |}.

Section Sampler.

Variable bld : build.
Variable flags : Flags.
Variable L : Layout.
(** [ShenandoahHeapRegion::region_size_bytes()], a [size_t]. *)
Variable region_size_bytes : Z.

Definition emit (e : event) (c : ShenandoahHeapRegionCounters)
  : ShenandoahHeapRegionCounters :=
  {| _last_sample_millis := _last_sample_millis c;
     _timestamp := _timestamp c;
     _status := _status c;
     _regions_data := _regions_data c;
     _log_file := _log_file c;
     max_regions := max_regions c;
     region_size := region_size c;
     history := history c ++ [e] |}.

(** [_status->set_value(v)] *)
Definition set_status (v : Z) (c : ShenandoahHeapRegionCounters)
  : outcome ShenandoahHeapRegionCounters :=
  match _status c with
  | None => Abort NullPointer
  | Some _ =>
      Ret (emit (SetStatus v)
        {| _last_sample_millis := _last_sample_millis c;
           _timestamp := _timestamp c;
           _status := Some v;
           _regions_data := _regions_data c;
           _log_file := _log_file c;
           max_regions := max_regions c;
           region_size := region_size c;
           history := history c |})
  end.

(** [_timestamp->set_value(v)] *)
Definition set_timestamp (v : Z) (c : ShenandoahHeapRegionCounters)
  : outcome ShenandoahHeapRegionCounters :=
  match _timestamp c with
  | None => Abort NullPointer
  | Some _ =>
      Ret (emit (SetTimestamp v)
        {| _last_sample_millis := _last_sample_millis c;
           _timestamp := Some v;
           _status := _status c;
           _regions_data := _regions_data c;
           _log_file := _log_file c;
           max_regions := max_regions c;
           region_size := region_size c;
           history := history c |})
  end.

(** [_regions_data[i]->set_value(v)]; an index past the array is a fault. *)
Definition set_region_data (i v : Z) (c : ShenandoahHeapRegionCounters)
  : outcome ShenandoahHeapRegionCounters :=
  if (0 <=? i) && (i <? Z.of_nat (length (_regions_data c))) then
    Ret (emit (SetRegionData i v)
      {| _last_sample_millis := _last_sample_millis c;
         _timestamp := _timestamp c;
         _status := _status c;
         _regions_data := <[Z.to_nat i := v]> (_regions_data c);
         _log_file := _log_file c;
         max_regions := max_regions c;
         region_size := region_size c;
         history := history c |})
  else Abort OutOfBounds.

(** Modelled from the spec: [ShenandoahLogFileOutput::write_snapshot] is not
    among the sources.  The log sink appends, as one entry, the region words
    with the timestamp, the status, the region count and the region size. *)
Definition write_snapshot (n rs : Z) (c : ShenandoahHeapRegionCounters)
  : outcome ShenandoahHeapRegionCounters :=
  match _log_file c, _timestamp c, _status c with
  | Some log, Some ts, Some st =>
      let snap :=
        {| snap_regions := take (Z.to_nat n) (_regions_data c);
           snap_timestamp := ts;
           snap_status := st;
           snap_num_regions := n;
           snap_region_size := rs |} in
      Ret (emit (WriteSnapshot snap)
        {| _last_sample_millis := _last_sample_millis c;
           _timestamp := _timestamp c;
           _status := _status c;
           _regions_data := _regions_data c;
           _log_file := Some (log ++ [snap]);
           max_regions := max_regions c;
           region_size := region_size c;
           history := history c |})
  | _, _, _ => Abort NullPointer
  end.

(** *** The region word

    [((100 * raw / rs) & PERCENT_MASK) << shift] is computed in [size_t];
    [(v & mask) << shift] of the other three fields in [jlong].  The shifts
    are those of the layout, taken to lie in 0..63. *)
Definition percent_lane (raw rs shift : Z) : Z :=
  u64 (Z.shiftl (Z.land (u64 (100 * raw) / rs) (u64 (PERCENT_MASK L))) shift).

Definition field_lane (v mask shift : Z) : Z :=
  jlong (Z.shiftl (Z.land v mask) shift).

(** [data |= t] for a [size_t] operand: the [jlong] is converted to
    [size_t], the result back to [jlong]. *)
Definition or_size_t (data t : Z) : Z := jlong (Z.lor (u64 data) t).

Definition region_data (rs : Z) (r : ShenandoahHeapRegion) : Z :=
  let data := 0 in
  let data := or_size_t data (percent_lane (used r) rs (USED_SHIFT L)) in
  let data :=
    or_size_t data (percent_lane (get_live_data_bytes r) rs (LIVE_SHIFT L)) in
  let data :=
    or_size_t data (percent_lane (get_tlab_allocs r) rs (TLAB_SHIFT L)) in
  let data :=
    or_size_t data (percent_lane (get_gclab_allocs r) rs (GCLAB_SHIFT L)) in
  let data :=
    or_size_t data (percent_lane (get_plab_allocs r) rs (PLAB_SHIFT L)) in
  let data :=
    or_size_t data (percent_lane (get_shared_allocs r) rs (SHARED_SHIFT L)) in
  let data := Z.lor data (field_lane (age r) (AGE_MASK L) (AGE_SHIFT L)) in
  let data :=
    Z.lor data
      (field_lane (affiliation r) (AFFILIATION_MASK L) (AFFILIATION_SHIFT L)) in
  let data :=
    Z.lor data (field_lane (state_ordinal r) (STATUS_MASK L) (STATUS_SHIFT L)) in
  data.

(** The body of the region loop. *)
Definition sample_region (heap : ShenandoahHeap) (rs i : Z)
    (c : ShenandoahHeapRegionCounters) : outcome ShenandoahHeapRegionCounters :=
  match get_region heap i with
  | None => Abort NullPointer
  | Some r =>
      if rs =? 0 then Abort DivideByZero
      else set_region_data i (region_data rs r) c
  end.

(** *** The constructor

    The perf data manager is taken to create every variable it is asked for,
    with the initial value 0; the names of the counters, unique by region
    index, are left out, and with them the assert that a name is new. *)
Definition create_region_variable (i : Z) (data : list Z) : outcome (list Z) :=
  Ret (data ++ [0]).

Definition construct (heap : ShenandoahHeap)
  : outcome ShenandoahHeapRegionCounters :=
  if UsePerfData flags && ShenandoahRegionSampling flags then
    let n := num_regions heap in
    data ← uint_for (S (Z.to_nat n)) n 0 create_region_variable [];
    Ret {| _last_sample_millis := 0;
           _timestamp := Some 0;
           _status := Some 0;
           _regions_data := data;
           _log_file :=
             if ShenandoahLogRegionSampling flags then Some [] else None;
           max_regions := Some n;
           region_size := Some (Z.shiftr region_size_bytes 10);
           history := [] |}
  else
    Ret {| _last_sample_millis := 0;
           _timestamp := None;
           _status := None;
           _regions_data := [];
           _log_file := None;
           max_regions := None;
           region_size := None;
           history := [] |}.

(** *** update *)

(** [Atomic::cmpxchg(&_last_sample_millis, compare, exchange)]: the old value
    is returned, and replaced when it equals [compare]. *)
Definition cmpxchg (compare exchange : Z) (c : ShenandoahHeapRegionCounters)
  : Z * ShenandoahHeapRegionCounters :=
  let old := _last_sample_millis c in
  (old, if old =? compare then store_last_sample_millis exchange c else c).

(** [current - last > ShenandoahRegionSamplingRate], the difference in
    [jlong]. *)
Definition interval_elapsed (current last : Z) : bool :=
  ShenandoahRegionSamplingRate flags <? jlong (current - last).

(** What [update] does once the exchange has succeeded. *)
Definition sampling_pass (w : World) (c : ShenandoahHeapRegionCounters)
  : outcome ShenandoahHeapRegionCounters :=
  let heap := the_heap w in
  status ← encode_heap_status bld heap;
  c ← set_status status c;
  c ← set_timestamp (elapsed_counter w) c;
  let n := num_regions heap in
  let c := emit LockHeap c in
  let rs := region_size_bytes in
  c ← uint_for (S (Z.to_nat n)) n 0 (sample_region heap rs) c;
  c ← (if ShenandoahLogRegionSampling flags then write_snapshot n rs c
       else Ret c);
  Ret (emit UnlockHeap c).

Definition update (w : World) (c : ShenandoahHeapRegionCounters)
  : outcome (ShenandoahHeapRegionCounters * SampleOutcome) :=
  if ShenandoahRegionSampling flags then
    let current := current_millis w in
    let last := _last_sample_millis c in
    if interval_elapsed current last then
      let '(old, c) := cmpxchg last current c in
      if old =? last then
        c ← sampling_pass w c;
        Ret (c, Sampled)
      else Ret (c, Skipped)
    else Ret (c, Skipped)
  else Ret (c, Skipped).

(** A sampler's life: one call of [update] after the other. *)
Fixpoint updates (ws : list World) (c : ShenandoahHeapRegionCounters)
  : outcome ShenandoahHeapRegionCounters :=
  match ws with
  | [] => Ret c
  | w :: ws' =>
      r ← update w c;
      updates ws' r.1
  end.

End Sampler.

(** ** Concurrent calls of update

    [update] reaches the shared object at three points: the read of
    [_last_sample_millis], the [cmpxchg], and the sampling pass.  A call in
    flight is its inputs and the point it has reached; a scheduler picks
    which call takes its next step.  The pass is one step of the winner. *)

Inductive point : Type :=
  | AtEntry
  | AtGate (last : Z)
  | AtPass
  | Returned (o : SampleOutcome).

Record call : Type := {
  call_world : World;
  call_point : point
}.

Section Concurrent.

Variable bld : build.
Variable flags : Flags.
Variable L : Layout.
Variable region_size_bytes : Z.

Definition call_step (k : call) (c : ShenandoahHeapRegionCounters)
  : outcome (call * ShenandoahHeapRegionCounters) :=
  let w := call_world k in
  let at_ p := {| call_world := w; call_point := p |} in
  match call_point k with
  | AtEntry =>
      if ShenandoahRegionSampling flags then
        Ret (at_ (AtGate (_last_sample_millis c)), c)
      else Ret (at_ (Returned Skipped), c)
  | AtGate last =>
      if interval_elapsed flags (current_millis w) last then
        let '(old, c) := cmpxchg last (current_millis w) c in
        if old =? last then Ret (at_ AtPass, c)
        else Ret (at_ (Returned Skipped), c)
      else Ret (at_ (Returned Skipped), c)
  | AtPass =>
      c ← sampling_pass bld flags L region_size_bytes w c;
      Ret (at_ (Returned Sampled), c)
  | Returned o => Ret (k, c)
  end.

Definition schedule_step (i : nat)
    (s : list call * ShenandoahHeapRegionCounters)
  : outcome (list call * ShenandoahHeapRegionCounters) :=
  match s.1 !! i with
  | None => Ret s
  | Some k =>
      r ← call_step k s.2;
      Ret (<[i := r.1]> s.1, r.2)
  end.

Fixpoint run (schedule : list nat)
    (s : list call * ShenandoahHeapRegionCounters)
  : outcome (list call * ShenandoahHeapRegionCounters) :=
  match schedule with
  | [] => Ret s
  | i :: rest =>
      s' ← schedule_step i s;
      run rest s'
  end.

End Concurrent.

Definition enter (w : World) : call :=
  {| call_world := w; call_point := AtEntry |}.

Definition has_returned (k : call) : bool :=
  match call_point k with
  | Returned _ => true
  | _ => false
  end.

Definition has_sampled (k : call) : bool :=
  match call_point k with
  | Returned Sampled => true
  | _ => false
  end.

Fixpoint count_sampled (ks : list call) : nat :=
  match ks with
  | [] => O
  | k :: ks' => (if has_sampled k then 1 else 0)%nat + count_sampled ks'
  end.

(** ** Vocabulary of the statements *)

Definition phase_in_progress (heap : ShenandoahHeap) : bool :=
  is_evacuation_in_progress heap || is_update_refs_in_progress heap
  || is_concurrent_mark_in_progress heap.

(** The collector state is one [encode_heap_status] answers for: some phase
    is in progress unless the heap is idle (a product build does not look),
    and a generational heap has an active generation. *)
Definition status_defined (bld : build) (heap : ShenandoahHeap) : bool :=
  is_idle heap
  || ((phase_in_progress heap || match bld with Product => true | Debug => false end)
      && (negb (mode_is_generational heap)
          || match active_generation heap with Some _ => true | None => false end)).

Definition is_size_t (x : Z) : Prop := 0 <= x < 2 ^ 64.

(** The six byte counts of a region are [size_t] values. *)
Definition raw_counts (r : ShenandoahHeapRegion) : list Z :=
  [ used r; get_live_data_bytes r; get_tlab_allocs r; get_gclab_allocs r;
    get_plab_allocs r; get_shared_allocs r ].

(** A region sample is valid for a layout: age, affiliation and state fit
    their fields. *)
Definition valid_sample (L : Layout) (r : ShenandoahHeapRegion) : Prop :=
  Forall is_size_t (raw_counts r)
  /\ 0 <= age r <= AGE_MASK L
  /\ 0 <= affiliation r <= AFFILIATION_MASK L
  /\ 0 <= state_ordinal r <= STATUS_MASK L.

(** The counters exist and there are [n] region variables. *)
Definition ready (flags : Flags) (n : Z) (c : ShenandoahHeapRegionCounters)
  : Prop :=
  is_Some (_timestamp c) /\ is_Some (_status c)
  /\ Z.of_nat (length (_regions_data c)) = n
  /\ (ShenandoahLogRegionSampling flags = true -> is_Some (_log_file c)).

(** A pass over this world runs to its end: the status is defined, the heap
    has [n] regions, [n] fits the loop index, and the region size is a
    [size_t] other than 0. *)
Definition samplable (bld : build) (rs n : Z) (w : World) : Prop :=
  status_defined bld (the_heap w) = true
  /\ num_regions (the_heap w) = n
  /\ n < 2 ^ 32
  /\ 0 < rs < 2 ^ 64.

(** The region writes of one pass, from index [i] on. *)
Fixpoint region_writes (L : Layout) (rs i : Z) (l : list ShenandoahHeapRegion)
  : list event :=
  match l with
  | [] => []
  | r :: l' => SetRegionData i (region_data L rs r) :: region_writes L rs (i + 1) l'
  end.

(** The indices the region writes of a history go to, in order. *)
Definition written_indices (es : list event) : list Z :=
  omap (fun e => match e with SetRegionData i _ => Some i | _ => None end) es.

(** The order of a pass as the spec words it: the timestamp first, then the
    status, then region words, then at most one log append.  The heap lock
    is not part of that sentence and is skipped. *)
Definition is_lock (e : event) : bool :=
  match e with
  | LockHeap | UnlockHeap => true
  | _ => false
  end.

Fixpoint regions_then_log (es : list event) : bool :=
  match es with
  | [] => true
  | SetRegionData _ _ :: es' => regions_then_log es'
  | [WriteSnapshot _] => true
  | _ => false
  end.

Definition spec_pass_order (es : list event) : bool :=
  match List.filter (fun e => negb (is_lock e)) es with
  | SetTimestamp _ :: SetStatus _ :: es' => regions_then_log es'
  | _ => false
  end.

(** The old-generation lane of a status word, and lane [shift] in general. *)
Definition status_lane (status shift : Z) : Z := Z.land (Z.shiftr status shift) 3.

(** The ratio as [update] computes it, in [size_t]. *)
Definition percent (raw rs : Z) : Z := u64 (100 * raw) / rs.

(** The nine values [update] packs into a region word, each with its lane,
    and bit [n] of the word as one of them sets it. *)
Definition fields (L : Layout) (rs : Z) (r : ShenandoahHeapRegion)
  : list (Z * (Z * Z)) :=
  zip [ percent (used r) rs; percent (get_live_data_bytes r) rs;
        percent (get_tlab_allocs r) rs; percent (get_gclab_allocs r) rs;
        percent (get_plab_allocs r) rs; percent (get_shared_allocs r) rs;
        age r; affiliation r; state_ordinal r ]
      (lanes L).

Definition lane_bit (n : Z) (f : Z * (Z * Z)) : bool :=
  (f.2.1 <=? n) && (n <? f.2.1 + width f.2.2) && Z.testbit f.1 (n - f.2.1).

(** A ratio field read back from word [w]: the ratio reduced to the width of
    the field, and the ratio itself when it fits. *)
Definition ratio_round_trip (L : Layout) (w shift q : Z) : Prop :=
  decode_field w shift (PERCENT_MASK L) = q mod 2 ^ width (PERCENT_MASK L)
  /\ (0 <= q <= PERCENT_MASK L -> decode_field w shift (PERCENT_MASK L) = q).

(** [body i], [body (i + 1)], ... for [count] indices: what the [uint] loop
    comes to when its bound fits the index. *)
Fixpoint for_each {St : Type} (body : Z -> St -> outcome St) (i : Z)
    (count : nat) (s : St) : outcome St :=
  match count with
  | O => Ret s
  | S count' =>
      s' ← body i s;
      for_each body (i + 1) count' s'
  end.

(** The object with other region values and further events. *)
Definition with_regions (data : list Z) (es : list event)
    (c : ShenandoahHeapRegionCounters) : ShenandoahHeapRegionCounters :=
  {| _last_sample_millis := _last_sample_millis c;
     _timestamp := _timestamp c;
     _status := _status c;
     _regions_data := data;
     _log_file := _log_file c;
     max_regions := max_regions c;
     region_size := region_size c;
     history := history c ++ es |}.

(** What a pass that runs to its end leaves behind. *)
Definition pass_snapshot (L : Layout) (rs : Z) (w : World) (st : Z) : Snapshot :=
  {| snap_regions := map (region_data L rs) (regions (the_heap w));
     snap_timestamp := elapsed_counter w;
     snap_status := st;
     snap_num_regions := num_regions (the_heap w);
     snap_region_size := rs |}.

Definition pass_events (flags : Flags) (L : Layout) (rs : Z) (w : World)
    (st : Z) : list event :=
  [SetStatus st; SetTimestamp (elapsed_counter w); LockHeap]
  ++ region_writes L rs 0 (regions (the_heap w))
  ++ (if ShenandoahLogRegionSampling flags
      then [WriteSnapshot (pass_snapshot L rs w st)] else [])
  ++ [UnlockHeap].

Definition after_pass (flags : Flags) (L : Layout) (rs : Z) (w : World)
    (st : Z) (c : ShenandoahHeapRegionCounters) : ShenandoahHeapRegionCounters :=
  {| _last_sample_millis := _last_sample_millis c;
     _timestamp := Some (elapsed_counter w);
     _status := Some st;
     _regions_data := map (region_data L rs) (regions (the_heap w));
     _log_file :=
       if ShenandoahLogRegionSampling flags
       then (fun log => log ++ [pass_snapshot L rs w st]) <$> _log_file c
       else _log_file c;
     max_regions := max_regions c;
     region_size := region_size c;
     history := history c ++ pass_events flags L rs w st |}.

(** ** What holds while calls race

    Of the calls of one interval, [winner] is the clock value of the call
    whose exchange succeeded, if any.  A call that has not won is at its
    entry, at the gate with the timestamp it read (the old one, or the
    winner's), or has returned without sampling after some call won. *)
Definition waiting (last0 : Z) (winner : option Z) (k : call) : Prop :=
  match call_point k with
  | AtEntry => True
  | AtGate l => l = last0 \/ winner = Some l
  | AtPass => False
  | Returned Skipped => is_Some winner
  | Returned Sampled => False
  end.

Definition racing (bld : build) (flags : Flags) (L : Layout) (rs : Z)
    (c0 : ShenandoahHeapRegionCounters) (ws : list World)
    (s : list call * ShenandoahHeapRegionCounters) : Prop :=
  call_world <$> s.1 = ws
  /\ ((s.2 = c0 /\ Forall (waiting (_last_sample_millis c0) None) s.1)
      \/ exists (j : nat) (kj : call) (st : Z),
           s.1 !! j = Some kj
           /\ encode_heap_status bld (the_heap (call_world kj)) = Ret st
           /\ ((call_point kj = AtPass
                /\ s.2 = store_last_sample_millis
                           (current_millis (call_world kj)) c0)
               \/ (call_point kj = Returned Sampled
                   /\ s.2 = after_pass flags L rs (call_world kj) st
                              (store_last_sample_millis
                                 (current_millis (call_world kj)) c0)))
           /\ forall (i : nat) (k : call), i <> j -> s.1 !! i = Some k ->
                waiting (_last_sample_millis c0)
                  (Some (current_millis (call_world kj))) k).

(** ** Sample inputs *)

Definition example_flags : Flags :=
  {| UsePerfData := true;
     ShenandoahRegionSampling := true;
     ShenandoahLogRegionSampling := true;
     ShenandoahRegionSamplingRate := 40 |}.

Definition example_region (used_bytes live_bytes : Z) : ShenandoahHeapRegion :=
  {| used := used_bytes;
     get_live_data_bytes := live_bytes;
     get_tlab_allocs := 0;
     get_gclab_allocs := 0;
     get_plab_allocs := 0;
     get_shared_allocs := 0;
     age := 3;
     affiliation := 1;
     state_ordinal := 2 |}.

(** Four regions of 100 bytes; the second holds more than its capacity. *)
Definition example_regions : list ShenandoahHeapRegion :=
  [ example_region 50 25; example_region 250 0; example_region 0 0;
    example_region 0 0 ].

(** Old-generation marking on a generational heap, every flag raised. *)
Definition example_heap (idle : bool) : ShenandoahHeap :=
  {| is_idle := idle;
     is_evacuation_in_progress := false;
     is_update_refs_in_progress := false;
     is_concurrent_mark_in_progress := true;
     is_concurrent_old_mark_in_progress := true;
     is_degenerated_gc_in_progress := true;
     is_full_gc_in_progress := true;
     mode_is_generational := true;
     active_generation := Some OLD;
     regions := example_regions |}.

Definition example_world (now : Z) : World :=
  {| current_millis := now;
     elapsed_counter := 777;
     the_heap := example_heap false |}.

(** The sampler as the constructor leaves it for four regions. *)
Definition example_counters : ShenandoahHeapRegionCounters :=
  {| _last_sample_millis := 0;
     _timestamp := Some 0;
     _status := Some 0;
     _regions_data := [0; 0; 0; 0];
     _log_file := Some [];
     max_regions := Some 4;
     region_size := Some 0;
     history := [] |}.

(** ** Further vocabulary *)

(** The name of the sampling file, as the constructor works it out before it
    creates the log output.  [flag] is [ShenandoahRegionSamplingFile], a
    [const char*] with [None] for [NULL]; the result is the name handed to
    [ShenandoahLogFileOutput] and the flag as the constructor leaves it. *)
Definition default_sampling_file : string := "./shenandoahSnapshots_pid%p.log".

Definition sampling_file_name (flag : option string)
  : option string * option string :=
  let name :=
    match flag with
    | Some f => Some f
    | None => Some default_sampling_file
    end in
  let flag' :=
    match name with
    | None => Some default_sampling_file
    | Some EmptyString => Some default_sampling_file
    | Some _ => flag
    end in
  (name, flag').

(** The snapshots a history hands to the log file, and the number of passes
    it records (each pass sets the status once). *)
Definition logged_snapshots (es : list event) : list Snapshot :=
  omap (fun e => match e with WriteSnapshot s => Some s | _ => None end) es.

Definition status_writes (es : list event) : list Z :=
  omap (fun e => match e with SetStatus v => Some v | _ => None end) es.

(** Clock values far enough from the ends of [jlong] that no difference of
    two of them overflows. *)
Definition clock_range (x : Z) : Prop := - 2 ^ 62 <= x < 2 ^ 62.

(** What holds of calls with arbitrary clocks, at every point of every
    schedule: the counters exist, and every timestamp in play (the shared
    one, the one a call has read) is a clock value. *)
Definition settled (bld : build) (flags : Flags) (rs n : Z)
    (s : list call * ShenandoahHeapRegionCounters) : Prop :=
  ready flags n s.2
  /\ clock_range (_last_sample_millis s.2)
  /\ Forall (fun k =>
               samplable bld rs n (call_world k)
               /\ clock_range (current_millis (call_world k))
               /\ match call_point k with
                  | AtGate l => clock_range l
                  | _ => True
                  end) s.1.

(** ** Further sample inputs *)

(** A heap view with the given phase flags, old-mark flag, mode and active
    generation, over the four sample regions; neither degenerated nor full. *)
Definition example_view (evac upd mark old_mark generational : bool)
    (g : option GenerationMode) : ShenandoahHeap :=
  {| is_idle := false;
     is_evacuation_in_progress := evac;
     is_update_refs_in_progress := upd;
     is_concurrent_mark_in_progress := mark;
     is_concurrent_old_mark_in_progress := old_mark;
     is_degenerated_gc_in_progress := false;
     is_full_gc_in_progress := false;
     mode_is_generational := generational;
     active_generation := g;
     regions := example_regions |}.

(** A region whose age, affiliation and state do not fit their fields. *)
Definition example_wide_region : ShenandoahHeapRegion :=
  {| used := 50;
     get_live_data_bytes := 25;
     get_tlab_allocs := 0;
     get_gclab_allocs := 0;
     get_plab_allocs := 0;
     get_shared_allocs := 0;
     age := 40;
     affiliation := 5;
     state_ordinal := -1 |}.

(** A sampler with two region variables only. *)
Definition example_short_counters : ShenandoahHeapRegionCounters :=
  {| _last_sample_millis := 0;
     _timestamp := Some 0;
     _status := Some 0;
     _regions_data := [0; 0];
     _log_file := Some [];
     max_regions := Some 2;
     region_size := Some 0;
     history := [] |}.

Definition example_flags_with (perf sampling : bool) : Flags :=
  {| UsePerfData := perf;
     ShenandoahRegionSampling := sampling;
     ShenandoahLogRegionSampling := true;
     ShenandoahRegionSamplingRate := 40 |}.

(** Passes and sampled calls tally: the status has been set once for every
    call that has returned having sampled. *)
Definition tally (c0 : ShenandoahHeapRegionCounters)
    (s : list call * ShenandoahHeapRegionCounters) : Prop :=
  length (status_writes (history s.2))
  = (length (status_writes (history c0)) + count_sampled s.1)%nat.

(** ** Passes over a sampler's life and calls that run to their end *)

(** As [samplable], for a heap that reports at most [n] regions: the pass
    stays inside an array of [n] region variables. *)
Definition samplable_upto (bld : build) (rs n : Z) (w : World) : Prop :=
  status_defined bld (the_heap w) = true
  /\ num_regions (the_heap w) <= n
  /\ n < 2 ^ 32
  /\ 0 < rs < 2 ^ 64.

(** The calls of a sampler's life that sampled, in call order. *)
Fixpoint sampled_worlds (bld : build) (flags : Flags) (L : Layout) (rs : Z)
    (ws : list World) (c : ShenandoahHeapRegionCounters)
  : outcome (list World) :=
  match ws with
  | [] => Ret []
  | w :: ws' =>
      r ← update bld flags L rs w c;
      rest ← sampled_worlds bld flags L rs ws' r.1;
      Ret match r.2 with
          | Sampled => w :: rest
          | Skipped => rest
          end
  end.

(** The status word of a world (0 where the encoder does not return), and
    the writes of one pass after the other. *)
Definition status_of (bld : build) (w : World) : Z :=
  match encode_heap_status bld (the_heap w) with
  | Ret st => st
  | Abort _ => 0
  end.

Definition lifetime_events (bld : build) (flags : Flags) (L : Layout) (rs : Z)
    (sampled : list World) : list event :=
  concat ((fun w => pass_events flags L rs w (status_of bld w)) <$> sampled).

(** What a pass leaves behind when the heap reports no more regions than
    there are region variables: the variables past the count keep their
    values. *)
Definition after_pass_keeping (flags : Flags) (L : Layout) (rs : Z) (w : World)
    (st : Z) (c : ShenandoahHeapRegionCounters) : ShenandoahHeapRegionCounters :=
  {| _last_sample_millis := _last_sample_millis c;
     _timestamp := Some (elapsed_counter w);
     _status := Some st;
     _regions_data :=
       map (region_data L rs) (regions (the_heap w))
       ++ drop (length (regions (the_heap w))) (_regions_data c);
     _log_file :=
       if ShenandoahLogRegionSampling flags
       then (fun log => log ++ [pass_snapshot L rs w st]) <$> _log_file c
       else _log_file c;
     max_regions := max_regions c;
     region_size := region_size c;
     history := history c ++ pass_events flags L rs w st |}.

(** The steps a call still has before it: at most three, and none once it
    has returned.  A schedule gives every one of [n] calls its three
    turns. *)
Definition steps_left (k : call) : nat :=
  match call_point k with
  | AtEntry => 3
  | AtGate _ => 2
  | AtPass => 1
  | Returned _ => 0
  end.

Fixpoint turns (j : nat) (schedule : list nat) : nat :=
  match schedule with
  | [] => O
  | i :: rest => ((if Nat.eqb i j then 1 else 0) + turns j rest)%nat
  end.

Definition gives_three_turns (schedule : list nat) (n : nat) : bool :=
  forallb (fun j => Nat.leb 3 (turns j schedule)) (seq 0 n).

(** The sample heap with its first three regions only. *)
Definition example_small_world (now : Z) : World :=
  {| current_millis := now;
     elapsed_counter := 777;
     the_heap :=
       {| is_idle := false;
          is_evacuation_in_progress := false;
          is_update_refs_in_progress := false;
          is_concurrent_mark_in_progress := true;
          is_concurrent_old_mark_in_progress := true;
          is_degenerated_gc_in_progress := true;
          is_full_gc_in_progress := true;
          mode_is_generational := true;
          active_generation := Some OLD;
          regions := take 3 example_regions |} |}.

(** * Theorems *)

(** ** The status encoder *)

Lemma encode_phase_range (bld : build) (heap : ShenandoahHeap) (p : Z) :
  encode_phase bld heap = Ret p -> p = 0 \/ p = 1 \/ p = 2 \/ p = 3.
Proof.
  unfold encode_phase.
  destruct (is_evacuation_in_progress heap); [intros [= <-]; lia|].
  destruct (is_update_refs_in_progress heap); [intros [= <-]; lia|].
  destruct (is_concurrent_mark_in_progress heap); [intros [= <-]; lia|].
  destruct bld, (is_idle heap); simpl; intros [= <-]; lia.
Qed.

Lemma encode_phase_defined (bld : build) (heap : ShenandoahHeap) :
  is_idle heap = false ->
  (phase_in_progress heap
   || match bld with Product => true | Debug => false end) = true ->
  exists p, encode_phase bld heap = Ret p.
Proof.
  unfold encode_phase, phase_in_progress. intros Hidle.
  destruct (is_evacuation_in_progress heap); [eauto|].
  destruct (is_update_refs_in_progress heap); [eauto|].
  destruct (is_concurrent_mark_in_progress heap); [eauto|].
  rewrite Hidle. destruct bld; simpl; [discriminate | eauto].
Qed.

(** C1: an idle heap encodes as the zero word whatever the old-mark,
    degenerated and full flags are; the idle test comes before any flag is
    looked at. *)
Theorem idle_status_is_zero (bld : build) (heap : ShenandoahHeap) :
  is_idle heap = true -> encode_heap_status bld heap = Ret 0.
Proof.
  intros Hidle. unfold encode_heap_status. now rewrite Hidle.
Qed.

(** C10: [encode_phase] answers by precedence, evacuation (2) before
    update-references (3) before concurrent marking (1); with none of them in
    progress the answer is 0, and a debug build asserts that the heap is
    idle. *)
Theorem encode_phase_precedence (bld : build) (heap : ShenandoahHeap) :
  (is_evacuation_in_progress heap = true -> encode_phase bld heap = Ret 2)
  /\ (is_evacuation_in_progress heap = false ->
      is_update_refs_in_progress heap = true -> encode_phase bld heap = Ret 3)
  /\ (is_evacuation_in_progress heap = false ->
      is_update_refs_in_progress heap = false ->
      is_concurrent_mark_in_progress heap = true ->
      encode_phase bld heap = Ret 1)
  /\ (phase_in_progress heap = false -> is_idle heap = true ->
      encode_phase bld heap = Ret 0)
  /\ (phase_in_progress heap = false -> is_idle heap = false ->
      encode_phase Debug heap = Abort (AssertFailed "What is it doing?")
      /\ encode_phase Product heap = Ret 0).
Proof.
  unfold encode_phase, phase_in_progress.
  repeat split; intros;
    repeat match goal with
           | H : _ || _ = false |- _ => apply orb_false_elim in H; destruct H
           | H : _ = _ |- _ => rewrite H
           end; try reflexivity.
  destruct bld; reflexivity.
Qed.

(** C2: on a generational heap that is not idle the status word is the phase
    ordinal, masked to two bits and shifted to the lane of the active
    generation (GLOBAL at 0, OLD at 2, YOUNG at 4), with bit 2 set when old
    marking runs concurrently (and the degenerated and full bits on top).
    The GLOBAL and YOUNG lanes read back the phase ordinal; the OLD lane
    reads back the ordinal with the old-mark bit in it.  For OLD, marking
    (ordinal 1) and old marking, the OLD lane reads 1 and bit 2 is set. *)
Theorem generational_status_lanes
    (bld : build) (heap : ShenandoahHeap) (g : GenerationMode) (p : Z) :
  is_idle heap = false ->
  mode_is_generational heap = true ->
  active_generation heap = Some g ->
  encode_phase bld heap = Ret p ->
  exists w,
    encode_heap_status bld heap = Ret w
    /\ w = Z.lor (Z.lor (Z.lor (Z.shiftl (Z.land p 3) (get_generation_shift g))
                           (if is_concurrent_old_mark_in_progress heap
                            then Z.shiftl 1 2 else 0))
                    (if is_degenerated_gc_in_progress heap
                     then Z.shiftl 1 6 else 0))
             (if is_full_gc_in_progress heap then Z.shiftl 1 7 else 0)
    /\ (get_generation_shift GLOBAL = 0 /\ get_generation_shift OLD = 2
        /\ get_generation_shift YOUNG = 4)
    /\ (is_concurrent_old_mark_in_progress heap = true -> Z.testbit w 2 = true)
    /\ (g <> OLD -> status_lane w (get_generation_shift g) = p)
    /\ (g = OLD ->
        status_lane w 2
        = Z.lor p (Z.b2z (is_concurrent_old_mark_in_progress heap)))
    /\ (g = OLD -> p = 1 -> is_concurrent_old_mark_in_progress heap = true ->
        status_lane w 2 = 1 /\ Z.testbit w 2 = true).
Proof.
  intros Hidle Hgen Hact Hp.
  pose proof (encode_phase_range _ _ _ Hp) as Hrange.
  unfold encode_heap_status. rewrite Hidle, Hgen, Hp, Hact. simpl.
  eexists; split; [reflexivity|].
  unfold flag_bit, status_lane.
  destruct (is_concurrent_old_mark_in_progress heap),
    (is_degenerated_gc_in_progress heap), (is_full_gc_in_progress heap), g;
    destruct Hrange as [-> | [-> | [-> | ->]]];
    repeat split; intros; try congruence; try reflexivity.
Qed.

Ltac low_part :=
  match goal with
  | |- exists low, _ /\ ?w = _ =>
      exists (Z.land w 63); vm_compute; repeat split; congruence
  end.

(** C8: on a heap that is not idle, generational or not, bit 6 of the status
    word is the degenerated flag and bit 7 is the full flag; the rest of the
    word, phase lanes and old-mark bit, stays below bit 6. *)
Theorem degenerated_and_full_bits (bld : build) (heap : ShenandoahHeap) :
  is_idle heap = false ->
  (status_defined bld heap = true ->
   exists w, encode_heap_status bld heap = Ret w)
  /\ (forall w, encode_heap_status bld heap = Ret w ->
      Z.testbit w 6 = is_degenerated_gc_in_progress heap
      /\ Z.testbit w 7 = is_full_gc_in_progress heap
      /\ exists low,
           0 <= low < 2 ^ 6
           /\ w = low
                  + (if is_degenerated_gc_in_progress heap then 2 ^ 6 else 0)
                  + (if is_full_gc_in_progress heap then 2 ^ 7 else 0)).
Proof.
  intros Hidle. split.
  - unfold status_defined, encode_heap_status. rewrite Hidle. simpl.
    intros [Hph Hgen]%andb_prop.
    destruct (encode_phase_defined bld heap Hidle Hph) as [p ->].
    destruct (mode_is_generational heap); simpl; [|eauto].
    destruct (active_generation heap); [eauto | discriminate].
  - unfold encode_heap_status. rewrite Hidle.
    destruct (encode_phase bld heap) as [p|f] eqn:Hp.
    2:{ destruct (mode_is_generational heap); discriminate. }
    pose proof (encode_phase_range _ _ _ Hp) as Hrange.
    destruct (mode_is_generational heap); simpl.
    + destruct (active_generation heap) as [g|]; simpl.
      2:{ destruct bld; discriminate. }
      intros w [= <-]. unfold flag_bit.
      destruct (is_concurrent_old_mark_in_progress heap),
        (is_degenerated_gc_in_progress heap), (is_full_gc_in_progress heap), g;
        destruct Hrange as [-> | [-> | [-> | ->]]];
        (split; [reflexivity | split; [reflexivity|]]);
        low_part.
    + intros w [= <-]. unfold flag_bit.
      destruct (is_degenerated_gc_in_progress heap), (is_full_gc_in_progress heap);
        destruct Hrange as [-> | [-> | [-> | ->]]];
        (split; [reflexivity | split; [reflexivity|]]);
        low_part.
Qed.

(** ** Fixed-width integers and lanes *)

Lemma low_bits_eq (a b n : Z) :
  a mod 2 ^ 64 = b mod 2 ^ 64 -> 0 <= n < 64 -> Z.testbit a n = Z.testbit b n.
Proof.
  intros Hmod Hn.
  rewrite <- (Z.mod_pow2_bits_low a 64 n), <- (Z.mod_pow2_bits_low b 64 n) by lia.
  now rewrite Hmod.
Qed.

Lemma u64_testbit (x n : Z) :
  0 <= n < 64 -> Z.testbit (u64 x) n = Z.testbit x n.
Proof. intros Hn. unfold u64. apply Z.mod_pow2_bits_low. lia. Qed.

Lemma jlong_testbit (x n : Z) :
  0 <= n < 64 -> Z.testbit (jlong x) n = Z.testbit x n.
Proof.
  intros Hn. apply low_bits_eq; [|assumption]. unfold jlong.
  rewrite Zminus_mod_idemp_l. f_equal. lia.
Qed.

Lemma jlong_range (x : Z) : - 2 ^ 63 <= jlong x < 2 ^ 63.
Proof.
  unfold jlong. pose proof (Z.mod_pos_bound (x + 2 ^ 63) (2 ^ 64)). lia.
Qed.

Lemma jlong_small (x : Z) : - 2 ^ 63 <= x < 2 ^ 63 -> jlong x = x.
Proof. intros Hx. unfold jlong. rewrite Z.mod_small; lia. Qed.

Lemma is_mask_ones (m : Z) :
  is_mask m = true -> 0 <= width m /\ m = Z.ones (width m).
Proof.
  unfold is_mask. intros [Hm Hpow]%andb_prop.
  apply Z.leb_le in Hm. apply Z.eqb_eq in Hpow.
  split; [apply Z.log2_nonneg|]. rewrite Z.ones_equiv. lia.
Qed.

Lemma lane_ok_spec (s m : Z) :
  lane_ok (s, m) = true ->
  0 <= s /\ 0 <= width m /\ s + width m <= 64 /\ m = Z.ones (width m).
Proof.
  unfold lane_ok. simpl. intros [[Hs Hw]%andb_prop Hm]%andb_prop.
  apply Z.leb_le in Hs, Hw. apply is_mask_ones in Hm. lia.
Qed.

Lemma mask_testbit (m k : Z) :
  is_mask m = true -> 0 <= k -> Z.testbit m k = (k <? width m).
Proof.
  intros [Hw Hm]%is_mask_ones Hk. rewrite Hm at 1.
  now apply Z.testbit_ones_nonneg.
Qed.

Lemma u64_mask (m : Z) : lane_ok (0, m) = true -> u64 m = m.
Proof.
  intros (_ & Hw & Hle & Hm)%lane_ok_spec. unfold u64.
  apply Z.mod_small. rewrite Hm, Z.ones_equiv.
  assert (2 ^ width m <= 2 ^ 64) by (apply Z.pow_le_mono_r; lia).
  assert (0 < 2 ^ width m) by (apply Z.pow_pos_nonneg; lia). lia.
Qed.

(** Bit [n] of a value masked and shifted into a lane. *)
Lemma shifted_lane_bit (v s m n : Z) :
  lane_ok (s, m) = true -> 0 <= n ->
  Z.testbit (Z.shiftl (Z.land v m) s) n = lane_bit n (v, (s, m)).
Proof.
  intros Hok Hn. pose proof Hok as (Hs & Hw & Hle & Hm)%lane_ok_spec.
  unfold lane_bit. simpl. rewrite Z.shiftl_spec by assumption.
  destruct (Z.leb_spec s n) as [Hsn|Hsn]; simpl.
  - rewrite Z.land_spec, Hm, Z.testbit_ones_nonneg by lia.
    rewrite <- Hm. rewrite andb_comm. f_equal.
    destruct (Z.ltb_spec (n - s) (width m)), (Z.ltb_spec n (s + width m));
      (reflexivity || lia).
  - apply Z.testbit_neg_r. lia.
Qed.

Lemma percent_lane_bit (L : Layout) (raw rs s n : Z) :
  lane_ok (s, PERCENT_MASK L) = true -> 0 <= n < 64 ->
  Z.testbit (percent_lane L raw rs s) n
  = lane_bit n (percent raw rs, (s, PERCENT_MASK L)).
Proof.
  intros Hok Hn. unfold percent_lane. rewrite u64_testbit by assumption.
  rewrite (u64_mask (PERCENT_MASK L)).
  - apply shifted_lane_bit; [assumption | lia].
  - pose proof Hok as (Hs & Hw & Hle & Hm)%lane_ok_spec.
    unfold lane_ok in *. simpl in *.
    apply andb_prop in Hok as [[_ _]%andb_prop ->].
    rewrite andb_true_r. apply Z.leb_le. lia.
Qed.

Lemma field_lane_bit (v m s n : Z) :
  lane_ok (s, m) = true -> 0 <= n < 64 ->
  Z.testbit (field_lane v m s) n = lane_bit n (v, (s, m)).
Proof.
  intros Hok Hn. unfold field_lane. rewrite jlong_testbit by assumption.
  apply shifted_lane_bit; [assumption | lia].
Qed.

Lemma or_size_t_bit (data t n : Z) :
  0 <= n < 64 ->
  Z.testbit (or_size_t data t) n = Z.testbit data n || Z.testbit t n.
Proof.
  intros Hn. unfold or_size_t.
  now rewrite jlong_testbit, Z.lor_spec, u64_testbit.
Qed.

Lemma layout_lanes_ok (L : Layout) (l : Z * Z) :
  layout_ok L = true -> l ∈ lanes L -> lane_ok l = true.
Proof.
  unfold layout_ok. intros [Hall _]%andb_prop Hin.
  rewrite forallb_forall in Hall. apply Hall. now apply list_elem_of_In.
Qed.

(** Bit by bit, the region word is the union of its nine lanes. *)
Lemma region_data_bit (L : Layout) (rs : Z) (r : ShenandoahHeapRegion) (n : Z) :
  layout_ok L = true -> 0 <= n < 64 ->
  Z.testbit (region_data L rs r) n = existsb (lane_bit n) (fields L rs r).
Proof.
  intros Hok Hn.
  assert (Hlane : forall l, l ∈ lanes L -> lane_ok l = true)
    by (intros; now apply layout_lanes_ok with L).
  unfold region_data.
  rewrite !Z.lor_spec, !or_size_t_bit, !percent_lane_bit, !field_lane_bit
    by (assumption || (apply Hlane; apply list_elem_of_In; simpl; tauto)).
  rewrite Z.testbit_0_l. cbn [fields lanes zip zip_with existsb].
  now rewrite !orb_false_r, !orb_assoc.
Qed.

Lemma apart_sym (a b : Z * Z) : apart a b = apart b a.
Proof. unfold apart. apply orb_comm. Qed.

Lemma pairwise_lookup {A : Type} (R : A -> A -> bool) (l : list A)
    (i j : nat) (a b : A) :
  (forall x y, R x y = R y x) ->
  pairwise R l = true -> i <> j -> l !! i = Some a -> l !! j = Some b ->
  R a b = true.
Proof.
  intros Hsym. revert i j.
  induction l as [|x l IH]; intros i j Hpw Hij Hi Hj; [discriminate|].
  simpl in Hpw. apply andb_prop in Hpw as [Hhd Htl].
  rewrite forallb_forall in Hhd.
  destruct i as [|i], j as [|j]; simpl in *; try congruence.
  - injection Hi as <-. apply Hhd, list_elem_of_In.
    now apply list_elem_of_lookup_2 with j.
  - injection Hj as <-. rewrite Hsym.
    apply Hhd, list_elem_of_In. now apply list_elem_of_lookup_2 with i.
  - apply (IH i j); (assumption || lia).
Qed.

Lemma existsb_only {A : Type} (f : A -> bool) (l : list A) (j : nat) (x : A) :
  l !! j = Some x ->
  (forall i y, i <> j -> l !! i = Some y -> f y = false) ->
  existsb f l = f x.
Proof.
  revert j. induction l as [|a l IH]; intros j Hj Hothers; [discriminate|].
  destruct j as [|j]; simpl in *.
  - injection Hj as ->.
    assert (existsb f l = false) as ->; [|apply orb_false_r].
    apply not_true_is_false. intros (y & Hin & Hy)%existsb_exists.
    apply list_elem_of_In, list_elem_of_lookup in Hin as [i Hi].
    specialize (Hothers (S i) y). simpl in Hothers.
    rewrite Hothers in Hy; [discriminate | lia | assumption].
  - rewrite (Hothers O a) by (reflexivity || lia). simpl.
    apply (IH j Hj). intros i y Hne Hi. apply (Hothers (S i) y); [lia | exact Hi].
Qed.

Lemma fields_lanes (L : Layout) (rs : Z) (r : ShenandoahHeapRegion) :
  (fields L rs r).*2 = lanes L.
Proof. reflexivity. Qed.

Lemma lane_ok_is_mask (s m : Z) : lane_ok (s, m) = true -> is_mask m = true.
Proof. unfold lane_ok. now intros [_ ?]%andb_prop. Qed.

(** Reading a lane back gives the value that went in, masked. *)
Lemma decode_lane (L : Layout) (rs : Z) (r : ShenandoahHeapRegion)
    (j : nat) (v s m : Z) :
  layout_ok L = true ->
  fields L rs r !! j = Some (v, (s, m)) ->
  decode_field (region_data L rs r) s m = Z.land v m.
Proof.
  intros Hok Hj.
  assert (Hlj : lanes L !! j = Some (s, m)).
  { rewrite <- (fields_lanes L rs r), list_lookup_fmap, Hj. reflexivity. }
  pose proof (layout_lanes_ok L (s, m) Hok (list_elem_of_lookup_2 _ _ _ Hlj))
    as Hlane.
  pose proof Hlane as (Hs & Hw & Hle & Hm)%lane_ok_spec.
  unfold decode_field. apply Z.bits_inj'. intros k Hk.
  rewrite !Z.land_spec, Z.shiftr_spec by assumption.
  rewrite !(mask_testbit m k) by (try assumption; now apply (lane_ok_is_mask s)).
  destruct (Z.ltb_spec k (width m)) as [Hkw|Hkw]; [|now rewrite !andb_false_r].
  rewrite !andb_true_r, region_data_bit by (assumption || lia).
  rewrite (existsb_only _ _ j (v, (s, m)) Hj).
  - unfold lane_bit. simpl.
    replace (k + s - s) with k by lia.
    destruct (Z.leb_spec s (k + s)), (Z.ltb_spec (k + s) (s + width m));
      (reflexivity || lia).
  - intros i [v' [s' m']] Hne Hi.
    assert (Hli : lanes L !! i = Some (s', m')).
    { rewrite <- (fields_lanes L rs r), list_lookup_fmap, Hi. reflexivity. }
    assert (Hap : apart (s, m) (s', m') = true).
    { unfold layout_ok in Hok. apply andb_prop in Hok as [_ Hpw].
      eapply (pairwise_lookup apart (lanes L) j i); eauto using apart_sym. }
    unfold apart in Hap. simpl in Hap. unfold lane_bit. simpl.
    apply orb_prop in Hap as [Hap|Hap]; apply Z.leb_le in Hap.
    + destruct (Z.leb_spec s' (k + s)); [lia | reflexivity].
    + destruct (Z.ltb_spec (k + s) (s' + width m')); [lia|].
      now rewrite andb_false_r.
Qed.

Lemma land_mask_mod (v m : Z) :
  is_mask m = true -> Z.land v m = v mod 2 ^ width m.
Proof.
  intros [Hw Hm]%is_mask_ones. rewrite Hm at 1. now apply Z.land_ones.
Qed.

Lemma land_mask_fits (v m : Z) :
  is_mask m = true -> 0 <= v <= m -> Z.land v m = v.
Proof.
  intros Hmask Hv. rewrite land_mask_mod by assumption.
  apply is_mask_ones in Hmask as [Hw Hm].
  apply Z.mod_small. rewrite Z.ones_equiv in Hm. lia.
Qed.

Lemma decode_ratio (L : Layout) (rs : Z) (r : ShenandoahHeapRegion)
    (j : nat) (q s : Z) :
  layout_ok L = true ->
  fields L rs r !! j = Some (q, (s, PERCENT_MASK L)) ->
  ratio_round_trip L (region_data L rs r) s q.
Proof.
  intros Hok Hj.
  assert (Hmask : is_mask (PERCENT_MASK L) = true).
  { apply (lane_ok_is_mask (USED_SHIFT L)), (layout_lanes_ok L); [assumption|].
    apply list_elem_of_In. simpl. tauto. }
  unfold ratio_round_trip. rewrite (decode_lane L rs r j q) by assumption.
  split; [now apply land_mask_mod | now apply land_mask_fits].
Qed.

Lemma decode_exact (L : Layout) (rs : Z) (r : ShenandoahHeapRegion)
    (j : nat) (v s m : Z) :
  layout_ok L = true ->
  fields L rs r !! j = Some (v, (s, m)) ->
  0 <= v <= m ->
  decode_field (region_data L rs r) s m = v.
Proof.
  intros Hok Hj Hv. rewrite (decode_lane L rs r j v) by assumption.
  apply land_mask_fits; [|assumption].
  apply (lane_ok_is_mask s), (layout_lanes_ok L); [assumption|].
  apply list_elem_of_lookup_2 with j.
  rewrite <- (fields_lanes L rs r), list_lookup_fmap, Hj. reflexivity.
Qed.

(** C7: for a layout whose lanes are disjoint and a sample whose age,
    affiliation and state fit their fields, reading the region word back by
    shift and mask gives age, affiliation and state exactly; each of the six
    ratios comes back reduced modulo the width of its field, so exactly
    when it fits the field. *)
Theorem region_word_round_trip
    (L : Layout) (rs : Z) (r : ShenandoahHeapRegion) :
  layout_ok L = true ->
  valid_sample L r ->
  let w := region_data L rs r in
  decode_field w (AGE_SHIFT L) (AGE_MASK L) = age r
  /\ decode_field w (AFFILIATION_SHIFT L) (AFFILIATION_MASK L) = affiliation r
  /\ decode_field w (STATUS_SHIFT L) (STATUS_MASK L) = state_ordinal r
  /\ ratio_round_trip L w (USED_SHIFT L) (percent (used r) rs)
  /\ ratio_round_trip L w (LIVE_SHIFT L) (percent (get_live_data_bytes r) rs)
  /\ ratio_round_trip L w (TLAB_SHIFT L) (percent (get_tlab_allocs r) rs)
  /\ ratio_round_trip L w (GCLAB_SHIFT L) (percent (get_gclab_allocs r) rs)
  /\ ratio_round_trip L w (PLAB_SHIFT L) (percent (get_plab_allocs r) rs)
  /\ ratio_round_trip L w (SHARED_SHIFT L) (percent (get_shared_allocs r) rs).
Proof.
  intros Hok (_ & Hage & Haff & Hst). cbv zeta.
  split; [now apply (decode_exact L rs r 6)|].
  split; [now apply (decode_exact L rs r 7)|].
  split; [now apply (decode_exact L rs r 8)|].
  split; [now apply (decode_ratio L rs r 0)|].
  split; [now apply (decode_ratio L rs r 1)|].
  split; [now apply (decode_ratio L rs r 2)|].
  split; [now apply (decode_ratio L rs r 3)|].
  split; [now apply (decode_ratio L rs r 4)|].
  now apply (decode_ratio L rs r 5).
Qed.

(** ** The loops *)

Lemma uint_small (i : Z) : 0 <= i < 2 ^ 32 -> uint i = i.
Proof. intros Hi. unfold uint. now apply Z.mod_small. Qed.

(** When the bound fits a [uint] the loop visits the indices below it, one
    after the other, and exits. *)
Lemma uint_for_for_each {St : Type} (body : Z -> St -> outcome St)
    (fuel : nat) (n i : Z) (count : nat) (s : St) :
  0 <= i -> i + Z.of_nat count = n -> n < 2 ^ 32 -> (count < fuel)%nat ->
  uint_for fuel n i body s = for_each body i count s.
Proof.
  revert i count s.
  induction fuel as [|fuel IH]; intros i count s Hi Hn Hfit Hfuel; [lia|].
  destruct count as [|count]; simpl.
  - destruct (Z.ltb_spec i n); [lia | reflexivity].
  - destruct (Z.ltb_spec i n); [|lia].
    destruct (body i s) as [s'|f]; simpl; [|reflexivity].
    rewrite uint_small by lia. apply IH; lia.
Qed.

#[local] Arguments uint_for : simpl never.

Lemma get_region_lookup (heap : ShenandoahHeap) (k : nat)
    (r : ShenandoahHeapRegion) :
  regions heap !! k = Some r -> get_region heap (Z.of_nat k) = Some r.
Proof.
  intros Hk. unfold get_region, num_regions.
  pose proof (lookup_lt_Some _ _ _ Hk) as Hlt.
  destruct (Z.leb_spec 0 (Z.of_nat k)); [|lia].
  destruct (Z.ltb_spec (Z.of_nat k) (Z.of_nat (length (regions heap)))); [|lia].
  simpl. now rewrite Nat2Z.id.
Qed.

Lemma with_regions_same (c : ShenandoahHeapRegionCounters) :
  with_regions (_regions_data c) [] c = c.
Proof. destruct c. unfold with_regions. simpl. now rewrite app_nil_r. Qed.

Lemma sample_region_at (L : Layout) (heap : ShenandoahHeap) (rs : Z) (k : nat)
    (r : ShenandoahHeapRegion) (c : ShenandoahHeapRegionCounters) :
  regions heap !! k = Some r ->
  rs <> 0 ->
  (k < length (_regions_data c))%nat ->
  sample_region L heap rs (Z.of_nat k) c
  = Ret (with_regions (<[k := region_data L rs r]> (_regions_data c))
           [SetRegionData (Z.of_nat k) (region_data L rs r)] c).
Proof.
  intros Hr Hrs Hk. unfold sample_region.
  rewrite (get_region_lookup heap k r Hr).
  destruct (Z.eqb_spec rs 0); [contradiction|].
  unfold set_region_data.
  destruct (Z.leb_spec 0 (Z.of_nat k)); [|lia].
  destruct (Z.ltb_spec (Z.of_nat k) (Z.of_nat (length (_regions_data c))));
    [|lia].
  simpl. now rewrite Nat2Z.id.
Qed.

Lemma for_each_sample_region (L : Layout) (heap : ShenandoahHeap) (rs : Z)
    (count k : nat) (c : ShenandoahHeapRegionCounters) :
  (k + count = length (regions heap))%nat ->
  rs <> 0 ->
  length (_regions_data c) = length (regions heap) ->
  for_each (sample_region L heap rs) (Z.of_nat k) count c
  = Ret (with_regions
           (take k (_regions_data c)
            ++ map (region_data L rs) (drop k (regions heap)))
           (region_writes L rs (Z.of_nat k) (drop k (regions heap))) c).
Proof.
  revert k c. induction count as [|count IH]; intros k c Hk Hrs Hlen;
    cbn [for_each].
  - rewrite drop_ge, take_ge by lia. simpl.
    now rewrite app_nil_r, with_regions_same.
  - destruct (lookup_lt_is_Some_2 (regions heap) k) as [r Hr]; [lia|].
    rewrite (sample_region_at L heap rs k r c) by (assumption || lia).
    simpl. replace (Z.of_nat k + 1) with (Z.of_nat (S k)) by lia.
    rewrite IH by (simpl; rewrite ?length_insert; lia).
    f_equal. unfold with_regions, emit. simpl.
    rewrite (drop_S _ _ _ Hr). simpl.
    replace (Z.of_nat k + 1) with (Z.of_nat (S k)) by lia.
    destruct (lookup_lt_is_Some_2 (_regions_data c) k) as [x Hx]; [lia|].
    rewrite (take_S_r (<[k:=region_data L rs r]> (_regions_data c)) k
               (region_data L rs r))
      by (apply list_lookup_insert_eq; lia).
    rewrite take_insert_ge by lia.
    now rewrite <- !app_assoc.
Qed.

Lemma for_each_create (count : nat) (i : Z) (data : list Z) :
  for_each create_region_variable i count data = Ret (data ++ replicate count 0).
Proof.
  revert i data. induction count as [|count IH]; intros i data; simpl.
  - now rewrite app_nil_r.
  - rewrite IH. now rewrite <- app_assoc.
Qed.

(** ** The status word is defined *)

Lemma status_defined_returns (bld : build) (heap : ShenandoahHeap) :
  status_defined bld heap = true ->
  exists st, encode_heap_status bld heap = Ret st.
Proof.
  unfold status_defined, encode_heap_status.
  destruct (is_idle heap) eqn:Hidle; simpl; [eauto|].
  intros [Hph Hgen]%andb_prop.
  destruct (encode_phase_defined bld heap Hidle Hph) as [p ->].
  destruct (mode_is_generational heap); simpl; [|eauto].
  destruct (active_generation heap); [eauto | discriminate].
Qed.

(** ** The sampling pass *)

Section Pass.

Variable bld : build.
Variable flags : Flags.
Variable L : Layout.
Variable rs : Z.

Lemma sampling_pass_spec (n st : Z) (w : World)
    (c : ShenandoahHeapRegionCounters) :
  ready flags n c ->
  samplable bld rs n w ->
  encode_heap_status bld (the_heap w) = Ret st ->
  sampling_pass bld flags L rs w c = Ret (after_pass flags L rs w st c).
Proof.
  intros (Hts & Hst & Hlen & Hlog) (_ & Hn & Hfit & Hrs) Henc.
  unfold sampling_pass. rewrite Henc. simpl.
  destruct Hts as [ts Hts], Hst as [st0 Hst].
  unfold set_status. rewrite Hst. simpl.
  unfold set_timestamp. simpl. rewrite Hts. simpl.
  unfold num_regions in *.
  rewrite (uint_for_for_each _ _ _ 0 (length (regions (the_heap w)))) by lia.
  rewrite (for_each_sample_region L (the_heap w) rs _ O) by (simpl; lia).
  simpl. rewrite drop_0.
  destruct (ShenandoahLogRegionSampling flags) eqn:Hflag; simpl.
  - destruct (Hlog eq_refl) as [log Hlogc].
    unfold write_snapshot. simpl. rewrite Hlogc. simpl.
    f_equal. unfold after_pass, pass_events, pass_snapshot, num_regions, emit.
    simpl. rewrite Hflag, Hlogc. simpl.
    rewrite Nat2Z.id, firstn_all2 by (rewrite length_map; lia).
    f_equal. now rewrite <- !app_assoc.
  - f_equal. unfold after_pass, pass_events, emit. simpl. rewrite Hflag.
    f_equal. now rewrite <- !app_assoc.
Qed.

Lemma after_pass_ready (n st : Z) (w : World)
    (c : ShenandoahHeapRegionCounters) :
  ready flags n c -> num_regions (the_heap w) = n ->
  ready flags n (after_pass flags L rs w st c).
Proof.
  intros (Hts & Hst & Hlen & Hlog) Hn. unfold ready, after_pass. simpl.
  repeat split; eauto.
  - rewrite length_map. exact Hn.
  - intros Hflag. rewrite Hflag. destruct (Hlog Hflag) as [log ->]. simpl. eauto.
Qed.

Lemma store_last_ready (n v : Z) (c : ShenandoahHeapRegionCounters) :
  ready flags n c -> ready flags n (store_last_sample_millis v c).
Proof. intros H. exact H. Qed.

(** [update] when the interval has elapsed: the exchange succeeds and the
    pass runs on the object with the new [_last_sample_millis]. *)
Lemma update_sampled (n st : Z) (w : World)
    (c : ShenandoahHeapRegionCounters) :
  ShenandoahRegionSampling flags = true ->
  interval_elapsed flags (current_millis w) (_last_sample_millis c) = true ->
  ready flags n c ->
  samplable bld rs n w ->
  encode_heap_status bld (the_heap w) = Ret st ->
  update bld flags L rs w c
  = Ret (after_pass flags L rs w st
           (store_last_sample_millis (current_millis w) c), Sampled).
Proof.
  intros Hon Hel Hready Hsam Henc. unfold update. rewrite Hon, Hel.
  unfold cmpxchg. rewrite Z.eqb_refl.
  now rewrite (sampling_pass_spec n st) by assumption.
Qed.

Lemma update_skipped (w : World) (c : ShenandoahHeapRegionCounters) :
  ShenandoahRegionSampling flags = false
  \/ interval_elapsed flags (current_millis w) (_last_sample_millis c) = false ->
  update bld flags L rs w c = Ret (c, Skipped).
Proof.
  unfold update. intros [-> | Hel]; [reflexivity|].
  rewrite Hel. now destruct (ShenandoahRegionSampling flags).
Qed.

End Pass.

(** ** update *)

Lemma interval_elapsed_false (flags : Flags) (current last : Z) :
  jlong (current - last) <= ShenandoahRegionSamplingRate flags ->
  interval_elapsed flags current last = false.
Proof. intros H. unfold interval_elapsed. apply Z.ltb_ge. exact H. Qed.

(** C3: with sampling enabled and [current - last] not above the sampling
    rate, [update] returns without sampling and leaves the object as it was:
    [_last_sample_millis], the timestamp, the status, every region variable
    and the log file are untouched, and no write is recorded. *)
Theorem update_within_interval_skips
    (bld : build) (flags : Flags) (L : Layout) (rs : Z)
    (w : World) (c : ShenandoahHeapRegionCounters) :
  ShenandoahRegionSampling flags = true ->
  jlong (current_millis w - _last_sample_millis c)
  <= ShenandoahRegionSamplingRate flags ->
  exists c',
    update bld flags L rs w c = Ret (c', Skipped)
    /\ c' = c
    /\ _last_sample_millis c' = _last_sample_millis c
    /\ history c' = history c.
Proof.
  intros Hon Hclose. exists c.
  rewrite update_skipped by (right; now apply interval_elapsed_false).
  repeat split.
Qed.


Lemma written_indices_region_writes (L : Layout) (rs i : Z)
    (l : list ShenandoahHeapRegion) :
  written_indices (region_writes L rs i l) = seqZ i (Z.of_nat (length l)).
Proof.
  revert i. induction l as [|r l IH]; intros i; [reflexivity|].
  cbn [region_writes length]. rewrite seqZ_cons by lia.
  unfold written_indices in *. cbn [omap list_omap]. rewrite IH.
  do 2 f_equal; lia.
Qed.


(** C5, as the code has it: once the exchange has succeeded the pass first
    sets the status counter, then the timestamp counter, then takes the heap
    lock and writes the region words in index order, then, only when log
    output is enabled, hands words, timestamp and status to the log file
    once, and releases the lock. *)
Theorem sampling_pass_order
    (bld : build) (flags : Flags) (L : Layout) (rs n : Z)
    (w : World) (c : ShenandoahHeapRegionCounters) :
  ShenandoahRegionSampling flags = true ->
  interval_elapsed flags (current_millis w) (_last_sample_millis c) = true ->
  ready flags n c ->
  samplable bld rs n w ->
  exists st c',
    encode_heap_status bld (the_heap w) = Ret st
    /\ update bld flags L rs w c = Ret (c', Sampled)
    /\ history c'
       = history c
         ++ [SetStatus st; SetTimestamp (elapsed_counter w); LockHeap]
         ++ region_writes L rs 0 (regions (the_heap w))
         ++ (if ShenandoahLogRegionSampling flags
             then [WriteSnapshot
                     {| snap_regions :=
                          map (region_data L rs) (regions (the_heap w));
                        snap_timestamp := elapsed_counter w;
                        snap_status := st;
                        snap_num_regions := n;
                        snap_region_size := rs |}]
             else [])
         ++ [UnlockHeap]
    /\ written_indices (region_writes L rs 0 (regions (the_heap w)))
       = seqZ 0 n.
Proof.
  intros Hon Hel Hready Hsam.
  destruct (status_defined_returns bld (the_heap w)) as [st Hst];
    [apply Hsam|].
  exists st. eexists. split; [exact Hst|].
  split; [now apply (update_sampled bld flags L rs n st)|].
  destruct Hsam as (_ & <- & _). split; [reflexivity|].
  apply written_indices_region_writes.
Qed.

(** C5 with the timestamp first does not hold: on the four-region example
    the pass sets the status before the timestamp, so the order of the spec
    is not the order of the writes. *)
Lemma sampling_pass_order_counterexample :
  (r ← update Debug example_flags reference_layout 100
         (example_world 100) example_counters;
   Ret (r.2, spec_pass_order (history r.1), head (history r.1)))
  = Ret (Sampled, false, Some (SetStatus 196)).
Proof. vm_compute. reflexivity. Qed.

Lemma percent_exact (raw rs : Z) :
  0 <= raw -> 100 * raw < 2 ^ 64 -> percent raw rs = 100 * raw / rs.
Proof.
  intros Hraw Hfit. unfold percent, u64. rewrite Z.mod_small; [reflexivity | lia].
Qed.

(** C6: a pass writes, for each region, a word whose six ratio fields hold
    [100 * raw / rs] (integer division, the product within [size_t]) reduced
    to the width of the field by the mask: read back, a field gives the ratio
    modulo that width, the ratio itself when it fits.  Nothing requires
    [raw <= rs]; a larger count is truncated, and the pass runs to its end. *)
Theorem ratios_written_by_update
    (bld : build) (flags : Flags) (L : Layout) (rs n : Z)
    (w : World) (c : ShenandoahHeapRegionCounters)
    (i : nat) (r : ShenandoahHeapRegion) :
  layout_ok L = true ->
  ShenandoahRegionSampling flags = true ->
  interval_elapsed flags (current_millis w) (_last_sample_millis c) = true ->
  ready flags n c ->
  samplable bld rs n w ->
  regions (the_heap w) !! i = Some r ->
  Forall (fun raw => 0 <= raw /\ 100 * raw < 2 ^ 64) (raw_counts r) ->
  exists c' word,
    update bld flags L rs w c = Ret (c', Sampled)
    /\ _regions_data c' !! i = Some word
    /\ ratio_round_trip L word (USED_SHIFT L) (100 * used r / rs)
    /\ ratio_round_trip L word (LIVE_SHIFT L) (100 * get_live_data_bytes r / rs)
    /\ ratio_round_trip L word (TLAB_SHIFT L) (100 * get_tlab_allocs r / rs)
    /\ ratio_round_trip L word (GCLAB_SHIFT L) (100 * get_gclab_allocs r / rs)
    /\ ratio_round_trip L word (PLAB_SHIFT L) (100 * get_plab_allocs r / rs)
    /\ ratio_round_trip L word (SHARED_SHIFT L) (100 * get_shared_allocs r / rs).
Proof.
  intros Hok Hon Hel Hready Hsam Hr Hraw.
  destruct (status_defined_returns bld (the_heap w)) as [st Hst];
    [apply Hsam|].
  eexists. exists (region_data L rs r).
  split; [now apply (update_sampled bld flags L rs n st)|].
  split; [simpl; now rewrite list_lookup_fmap, Hr|].
  unfold raw_counts in Hraw.
  repeat match goal with
         | H : Forall _ (_ :: _) |- _ =>
             apply Forall_cons_1 in H as [[? ?] H]
         end.
  rewrite <- !percent_exact by assumption.
  split; [now apply (decode_ratio L rs r 0)|].
  split; [now apply (decode_ratio L rs r 1)|].
  split; [now apply (decode_ratio L rs r 2)|].
  split; [now apply (decode_ratio L rs r 3)|].
  split; [now apply (decode_ratio L rs r 4)|].
  now apply (decode_ratio L rs r 5).
Qed.

(** ** The constructor and the life of a sampler *)

Lemma construct_ready (flags : Flags) (rs : Z) (heap : ShenandoahHeap) :
  UsePerfData flags = true ->
  ShenandoahRegionSampling flags = true ->
  num_regions heap < 2 ^ 32 ->
  exists c0,
    construct flags rs heap = Ret c0
    /\ ready flags (num_regions heap) c0
    /\ max_regions c0 = Some (num_regions heap)
    /\ _last_sample_millis c0 = 0
    /\ history c0 = [].
Proof.
  intros Hperf Hon Hfit. unfold construct. rewrite Hperf, Hon. simpl.
  unfold num_regions in *.
  rewrite (uint_for_for_each _ _ _ 0 (length (regions heap))) by lia.
  rewrite for_each_create. simpl. eexists. split; [reflexivity|].
  unfold ready. simpl. rewrite length_replicate.
  repeat split; eauto. intros ->. eauto.
Qed.

(** The region loop on an array with room to spare: the variables past the
    last region are left alone. *)
Lemma for_each_sample_region_upto (L : Layout) (heap : ShenandoahHeap) (rs : Z)
    (count k : nat) (c : ShenandoahHeapRegionCounters) :
  (k + count = length (regions heap))%nat ->
  rs <> 0 ->
  (length (regions heap) <= length (_regions_data c))%nat ->
  for_each (sample_region L heap rs) (Z.of_nat k) count c
  = Ret (with_regions
           (take k (_regions_data c)
            ++ map (region_data L rs) (drop k (regions heap))
            ++ drop (length (regions heap)) (_regions_data c))
           (region_writes L rs (Z.of_nat k) (drop k (regions heap))) c).
Proof.
  revert k c. induction count as [|count IH]; intros k c Hk Hrs Hlen;
    cbn [for_each].
  - replace k with (length (regions heap)) by lia.
    rewrite drop_all. simpl. now rewrite take_drop, with_regions_same.
  - destruct (lookup_lt_is_Some_2 (regions heap) k) as [r Hr]; [lia|].
    rewrite (sample_region_at L heap rs k r c) by (assumption || lia).
    simpl. replace (Z.of_nat k + 1) with (Z.of_nat (S k)) by lia.
    rewrite IH by (simpl; rewrite ?length_insert; lia).
    f_equal. unfold with_regions, emit. simpl.
    rewrite (drop_S _ _ _ Hr). simpl.
    replace (Z.of_nat k + 1) with (Z.of_nat (S k)) by lia.
    rewrite (take_S_r (<[k:=region_data L rs r]> (_regions_data c)) k
               (region_data L rs r))
      by (apply list_lookup_insert_eq; lia).
    rewrite take_insert_ge, drop_insert_lt by lia.
    now rewrite <- !app_assoc.
Qed.

Lemma sampling_pass_spec_upto (bld : build) (flags : Flags) (L : Layout)
    (rs n st : Z) (w : World) (c : ShenandoahHeapRegionCounters) :
  ready flags n c ->
  samplable_upto bld rs n w ->
  encode_heap_status bld (the_heap w) = Ret st ->
  sampling_pass bld flags L rs w c = Ret (after_pass_keeping flags L rs w st c).
Proof.
  intros (Hts & Hst & Hlen & Hlog) (_ & Hn & Hfit & Hrs) Henc.
  unfold sampling_pass. rewrite Henc. simpl.
  destruct Hts as [ts Hts], Hst as [st0 Hst].
  unfold set_status. rewrite Hst. simpl.
  unfold set_timestamp. simpl. rewrite Hts. simpl.
  unfold num_regions in *.
  rewrite (uint_for_for_each _ _ _ 0 (length (regions (the_heap w)))) by lia.
  rewrite (for_each_sample_region_upto L (the_heap w) rs _ O) by (simpl; lia).
  simpl. rewrite drop_0.
  destruct (ShenandoahLogRegionSampling flags) eqn:Hflag; simpl.
  - destruct (Hlog eq_refl) as [log Hlogc].
    unfold write_snapshot. simpl. rewrite Hlogc. simpl.
    f_equal.
    unfold after_pass_keeping, pass_events, pass_snapshot, num_regions, emit.
    simpl. rewrite Hflag, Hlogc. simpl.
    rewrite Nat2Z.id, take_app_length' by now rewrite length_map.
    f_equal. now rewrite <- !app_assoc.
  - f_equal. unfold after_pass_keeping, pass_events, emit. simpl.
    rewrite Hflag. f_equal. now rewrite <- !app_assoc.
Qed.

Lemma after_pass_keeping_ready (flags : Flags) (L : Layout) (rs n st : Z)
    (w : World) (c : ShenandoahHeapRegionCounters) :
  ready flags n c -> num_regions (the_heap w) <= n ->
  ready flags n (after_pass_keeping flags L rs w st c).
Proof.
  intros (Hts & Hst & Hlen & Hlog) Hn. unfold ready, after_pass_keeping. simpl.
  split; [eauto|]. split; [eauto|]. split.
  - rewrite length_app, length_map, length_drop. unfold num_regions in Hn. lia.
  - intros Hflag. rewrite Hflag. destruct (Hlog Hflag) as [log ->]. simpl. eauto.
Qed.

Lemma status_of_returned (bld : build) (w : World) (st : Z) :
  encode_heap_status bld (the_heap w) = Ret st -> status_of bld w = st.
Proof. unfold status_of. now intros ->. Qed.

Lemma logged_snapshots_app (es1 es2 : list event) :
  logged_snapshots (es1 ++ es2) = logged_snapshots es1 ++ logged_snapshots es2.
Proof. apply omap_app. Qed.

Lemma status_writes_app (es1 es2 : list event) :
  status_writes (es1 ++ es2) = status_writes es1 ++ status_writes es2.
Proof. apply omap_app. Qed.

Lemma region_writes_only_regions (L : Layout) (rs i : Z)
    (l : list ShenandoahHeapRegion) :
  logged_snapshots (region_writes L rs i l) = []
  /\ status_writes (region_writes L rs i l) = [].
Proof.
  revert i. induction l as [|r l IH]; intros i; [now split|].
  simpl. apply IH.
Qed.

Lemma pass_events_logged (flags : Flags) (L : Layout) (rs st : Z) (w : World) :
  logged_snapshots (pass_events flags L rs w st)
  = (if ShenandoahLogRegionSampling flags then [pass_snapshot L rs w st] else [])
  /\ status_writes (pass_events flags L rs w st) = [st].
Proof.
  unfold pass_events.
  rewrite !logged_snapshots_app, !status_writes_app.
  destruct (region_writes_only_regions L rs 0 (regions (the_heap w)))
    as [-> ->].
  now destruct (ShenandoahLogRegionSampling flags).
Qed.

Lemma lifetime_events_cons (bld : build) (flags : Flags) (L : Layout) (rs : Z)
    (w : World) (sampled : list World) :
  lifetime_events bld flags L rs (w :: sampled)
  = pass_events flags L rs w (status_of bld w)
    ++ lifetime_events bld flags L rs sampled.
Proof. reflexivity. Qed.

Lemma log_after_pass_keeping (flags : Flags) (L : Layout) (rs st : Z)
    (w : World) (c : ShenandoahHeapRegionCounters) :
  _log_file (after_pass_keeping flags L rs w st c)
  = (fun log => log ++ logged_snapshots (pass_events flags L rs w st))
    <$> _log_file c.
Proof.
  destruct (pass_events_logged flags L rs st w) as [-> _].
  unfold after_pass_keeping. cbn [_log_file].
  destruct (ShenandoahLogRegionSampling flags), (_log_file c); simpl;
    try reflexivity.
  now rewrite app_nil_r.
Qed.

(** A sampler's life, call by call: the calls that sampled are those whose
    passes make up the history, one pass each and in call order, and the log
    file has grown by the snapshots of those passes. *)
Lemma updates_unfold (bld : build) (flags : Flags) (L : Layout) (rs n : Z)
    (ws : list World) (c : ShenandoahHeapRegionCounters) :
  Forall (samplable_upto bld rs n) ws ->
  ready flags n c ->
  exists c' sampled,
    updates bld flags L rs ws c = Ret c'
    /\ sampled_worlds bld flags L rs ws c = Ret sampled
    /\ ready flags n c'
    /\ (forall P : World -> Prop, Forall P ws -> Forall P sampled)
    /\ history c' = history c ++ lifetime_events bld flags L rs sampled
    /\ _log_file c'
       = (fun log => log ++ logged_snapshots
                              (lifetime_events bld flags L rs sampled))
         <$> _log_file c.
Proof.
  intros Hws. revert c.
  induction Hws as [|w ws Hw Hws IH]; intros c Hready.
  - exists c, []. simpl. unfold lifetime_events. simpl.
    rewrite app_nil_r. split; [reflexivity|]. split; [reflexivity|].
    split; [assumption|]. split; [intros P _; constructor|].
    split; [reflexivity|].
    destruct (_log_file c); simpl; [now rewrite app_nil_r | reflexivity].
  - assert (Hskip : update bld flags L rs w c = Ret (c, Skipped) ->
      exists c' sampled,
        updates bld flags L rs (w :: ws) c = Ret c'
        /\ sampled_worlds bld flags L rs (w :: ws) c = Ret sampled
        /\ ready flags n c'
        /\ (forall P : World -> Prop, Forall P (w :: ws) -> Forall P sampled)
        /\ history c' = history c ++ lifetime_events bld flags L rs sampled
        /\ _log_file c'
           = (fun log => log ++ logged_snapshots
                                  (lifetime_events bld flags L rs sampled))
             <$> _log_file c).
    { intros Hup.
      destruct (IH c Hready) as (c' & sampled & Hrun & Hsw & Hr & HP & Hh & Hl).
      exists c', sampled. simpl. rewrite Hup. simpl. rewrite Hrun, Hsw. simpl.
      split; [reflexivity|]. split; [reflexivity|]. split; [exact Hr|].
      split; [|split; assumption].
      intros P HPw. apply HP. now apply Forall_inv_tail in HPw. }
    destruct (ShenandoahRegionSampling flags) eqn:Hon.
    2:{ apply Hskip, update_skipped. now left. }
    destruct (interval_elapsed flags (current_millis w) (_last_sample_millis c))
      eqn:Hel.
    2:{ apply Hskip, update_skipped. now right. }
    clear Hskip.
    destruct (status_defined_returns bld (the_heap w)) as [st Hst];
      [apply Hw|].
    assert (Hup : update bld flags L rs w c
                  = Ret (after_pass_keeping flags L rs w st
                           (store_last_sample_millis (current_millis w) c),
                         Sampled)).
    { unfold update. rewrite Hon, Hel. unfold cmpxchg. rewrite Z.eqb_refl.
      now rewrite (sampling_pass_spec_upto bld flags L rs n st) by assumption. }
    destruct (IH (after_pass_keeping flags L rs w st
                    (store_last_sample_millis (current_millis w) c)))
      as (c' & sampled & Hrun & Hsw & Hr & HP & Hh & Hl).
    { apply after_pass_keeping_ready; [assumption | apply Hw]. }
    exists c', (w :: sampled). simpl. rewrite Hup. simpl. rewrite Hrun, Hsw.
    simpl. split; [reflexivity|]. split; [reflexivity|]. split; [exact Hr|].
    split.
    { intros P HPw. constructor; [now apply Forall_inv in HPw|].
      apply HP. now apply Forall_inv_tail in HPw. }
    rewrite lifetime_events_cons, (status_of_returned bld w st Hst).
    split.
    + rewrite Hh. simpl. now rewrite <- app_assoc.
    + rewrite Hl, log_after_pass_keeping, logged_snapshots_app.
      cbn [_log_file store_last_sample_millis].
      destruct (_log_file c); simpl; [|reflexivity].
      now rewrite <- app_assoc.
Qed.





(** [update] takes the region count from the heap at every pass: were the
    heap to report a fifth region to a sampler built for four, the write to
    the fifth variable would fall outside the array. *)
Lemma update_reads_count_again :
  update Debug example_flags reference_layout 100
    {| current_millis := 100;
       elapsed_counter := 777;
       the_heap :=
         {| is_idle := true;
            is_evacuation_in_progress := false;
            is_update_refs_in_progress := false;
            is_concurrent_mark_in_progress := false;
            is_concurrent_old_mark_in_progress := false;
            is_degenerated_gc_in_progress := false;
            is_full_gc_in_progress := false;
            mode_is_generational := false;
            active_generation := None;
            regions := example_regions ++ [example_region 0 0] |} |}
    example_counters
  = Abort OutOfBounds.
Proof. vm_compute. reflexivity. Qed.

(** ** Concurrent calls within one interval *)

(** One call alone takes the three steps of [update]. *)
Lemma update_as_steps (bld : build) (flags : Flags) (L : Layout) (rs : Z)
    (w : World) (c : ShenandoahHeapRegionCounters) :
  run bld flags L rs [O; O; O] ([enter w], c)
  = r ← update bld flags L rs w c;
    Ret ([{| call_world := w; call_point := Returned r.2 |}], r.1).
Proof.
  unfold update, run, schedule_step, call_step, enter. simpl.
  destruct (ShenandoahRegionSampling flags); simpl; [|reflexivity].
  destruct (interval_elapsed flags (current_millis w) (_last_sample_millis c));
    simpl; [|reflexivity].
  rewrite Z.eqb_refl. simpl.
  destruct (sampling_pass bld flags L rs w _); reflexivity.
Qed.

Lemma waiting_mono (last0 x : Z) (k : call) :
  waiting last0 None k -> waiting last0 (Some x) k.
Proof.
  unfold waiting. destruct (call_point k) as [|l| |[|]]; try tauto.
  - intros [-> | [=]]. now left.
  - intros [? [=]].
Qed.

Section Race.

Variable bld : build.
Variable flags : Flags.
Variable L : Layout.
Variable rs n : Z.
Variable c0 : ShenandoahHeapRegionCounters.
Variable ws : list World.

Let rate := ShenandoahRegionSamplingRate flags.
Let last0 := _last_sample_millis c0.

Hypothesis Hon : ShenandoahRegionSampling flags = true.
Hypothesis Hrate : 0 <= rate.
Hypothesis Hready : ready flags n c0.
Hypothesis Hsam : Forall (samplable bld rs n) ws.
Hypothesis Hpast : Forall (fun w => rate < current_millis w - last0 < 2 ^ 63) ws.
Hypothesis Hnear :
  forall w w', w ∈ ws -> w' ∈ ws -> current_millis w - current_millis w' <= rate.

Lemma past_elapsed (w : World) :
  w ∈ ws -> interval_elapsed flags (current_millis w) last0 = true.
Proof.
  intros Hw. rewrite Forall_forall in Hpast. specialize (Hpast w Hw).
  unfold interval_elapsed. rewrite jlong_small by lia. apply Z.ltb_lt.
  fold rate. lia.
Qed.

Lemma near_not_elapsed (w w' : World) :
  w ∈ ws -> w' ∈ ws ->
  interval_elapsed flags (current_millis w) (current_millis w') = false.
Proof.
  intros Hw Hw'. pose proof (Hnear w w' Hw Hw'). pose proof (Hnear w' w Hw' Hw).
  rewrite Forall_forall in Hpast. pose proof (Hpast w Hw).
  unfold interval_elapsed. rewrite jlong_small by lia. apply Z.ltb_ge.
  fold rate. lia.
Qed.

Lemma winner_moves_on (w : World) : w ∈ ws -> current_millis w <> last0.
Proof.
  intros Hw. rewrite Forall_forall in Hpast. specialize (Hpast w Hw). lia.
Qed.

(** Before any exchange has succeeded: a call reads the old timestamp, or
    wins at the gate. *)
Lemma step_before_winner (k : call) :
  call_world k ∈ ws ->
  waiting last0 None k ->
  (exists k', call_step bld flags L rs k c0 = Ret (k', c0)
              /\ call_world k' = call_world k /\ waiting last0 None k')
  \/ call_step bld flags L rs k c0
     = Ret ({| call_world := call_world k; call_point := AtPass |},
            store_last_sample_millis (current_millis (call_world k)) c0).
Proof.
  intros Hw Hwait. unfold waiting in Hwait. unfold call_step.
  destruct (call_point k) as [|l| |[|]] eqn:Hpt; try tauto.
  - left. rewrite Hon. eexists. split; [reflexivity|].
    split; [reflexivity|]. unfold waiting. simpl. now left.
  - right. destruct Hwait as [-> | [=]].
    rewrite (past_elapsed _ Hw). unfold cmpxchg. fold last0.
    now rewrite Z.eqb_refl.
  - now destruct Hwait as [? [=]].
Qed.

(** After the exchange of a call with clock [x] has succeeded: every other
    call returns without changing the object. *)
Lemma step_after_winner (k : call) (wj : World)
    (c : ShenandoahHeapRegionCounters) :
  call_world k ∈ ws -> wj ∈ ws ->
  _last_sample_millis c = current_millis wj ->
  waiting last0 (Some (current_millis wj)) k ->
  exists k', call_step bld flags L rs k c = Ret (k', c)
             /\ call_world k' = call_world k
             /\ waiting last0 (Some (current_millis wj)) k'.
Proof.
  intros Hw Hwj Hlast Hwait. unfold waiting in Hwait. unfold call_step.
  destruct (call_point k) as [|l| |[|]] eqn:Hpt; try tauto.
  - rewrite Hon, Hlast. eexists. split; [reflexivity|].
    split; [reflexivity|]. unfold waiting. simpl. now right.
  - assert (Hskip : waiting last0 (Some (current_millis wj))
                      {| call_world := call_world k;
                         call_point := Returned Skipped |})
      by (unfold waiting; simpl; eauto).
    destruct Hwait as [-> | [= <-]].
    + rewrite (past_elapsed _ Hw). unfold cmpxchg. rewrite Hlast.
      destruct (Z.eqb_spec (current_millis wj) last0) as [Heq|_].
      { now apply winner_moves_on in Heq. }
      eauto.
    + rewrite (near_not_elapsed _ _ Hw Hwj). eauto.
  - eexists. split; [reflexivity|]. split; [reflexivity|].
    unfold waiting. now rewrite Hpt.
Qed.

Lemma world_of_call (ks : list call) (i : nat) (k : call) :
  call_world <$> ks = ws -> ks !! i = Some k -> call_world k ∈ ws.
Proof.
  intros <- Hk. apply list_elem_of_lookup_2 with i.
  now rewrite list_lookup_fmap, Hk.
Qed.

Lemma worlds_after_step (ks : list call) (i : nat) (k k' : call) :
  call_world <$> ks = ws -> ks !! i = Some k -> call_world k' = call_world k ->
  call_world <$> <[i := k']> ks = ws.
Proof.
  intros Hws Hk Hsame. rewrite list_fmap_insert, Hsame, <- Hws.
  apply list_insert_id. now rewrite list_lookup_fmap, Hk.
Qed.

Lemma racing_start : racing bld flags L rs c0 ws (enter <$> ws, c0).
Proof.
  split; simpl.
  - rewrite <- list_fmap_compose. apply list_fmap_id.
  - left. split; [reflexivity|]. apply Forall_fmap, Forall_true.
    intros w. exact I.
Qed.

Lemma racing_step (i : nat) (s : list call * ShenandoahHeapRegionCounters) :
  racing bld flags L rs c0 ws s ->
  exists s', schedule_step bld flags L rs i s = Ret s'
             /\ racing bld flags L rs c0 ws s'.
Proof.
  destruct s as [ks c]. intros [Hws Hphase]. simpl in Hws, Hphase.
  unfold schedule_step. simpl.
  destruct (ks !! i) as [k|] eqn:Hk; [|exists (ks, c); now split].
  pose proof (world_of_call ks i k Hws Hk) as Hw.
  destruct Hphase as [[-> Hall] | (j & kj & st & Hj & Hst & Hwin & Hothers)].
  - (* no winner yet *)
    rewrite Forall_lookup in Hall.
    destruct (step_before_winner k Hw (Hall i k Hk))
      as [(k' & -> & Hsame & Hwait) | ->]; simpl;
      (eexists; split; [reflexivity|]); split; simpl.
    + now apply (worlds_after_step ks i k).
    + left. split; [reflexivity|]. apply Forall_insert; [|assumption].
      now apply Forall_lookup.
    + now apply (worlds_after_step ks i k).
    + right.
      destruct (status_defined_returns bld (the_heap (call_world k)))
        as [st Hst].
      { rewrite Forall_forall in Hsam. apply (Hsam _ Hw). }
      exists i, {| call_world := call_world k; call_point := AtPass |}, st.
      split; [apply list_lookup_insert_eq; eauto using lookup_lt_Some|].
      split; [exact Hst|]. split; [left; now split|].
      intros i' k' Hne Hk'. simpl.
      rewrite list_lookup_insert_ne in Hk' by congruence.
      apply waiting_mono. eauto.
  - (* some call has won *)
    pose proof (world_of_call ks j kj Hws Hj) as Hwj.
    destruct (decide (i = j)) as [->|Hne].
    + (* the winner itself *)
      assert (k = kj) as -> by congruence.
      destruct Hwin as [[Hpt ->] | [Hpt ->]]; unfold call_step; rewrite Hpt.
      * rewrite (sampling_pass_spec bld flags L rs n st).
        2:{ now apply store_last_ready. }
        2:{ rewrite Forall_forall in Hsam. now apply Hsam. }
        2:{ exact Hst. }
        simpl. eexists. split; [reflexivity|]. split; simpl.
        { now apply (worlds_after_step ks j kj). }
        right.
        exists j, {| call_world := call_world kj;
                     call_point := Returned Sampled |}, st.
        split; [apply list_lookup_insert_eq; eauto using lookup_lt_Some|].
        split; [exact Hst|]. split; [right; now split|].
        intros i' k' Hne Hk'. simpl.
        rewrite list_lookup_insert_ne in Hk' by congruence. eauto.
      * simpl. rewrite list_insert_id by assumption.
        eexists. split; [reflexivity|]. split; [assumption|].
        right. exists j, kj, st. eauto 10.
    + (* another call *)
      assert (Hlast : _last_sample_millis c = current_millis (call_world kj))
        by (destruct Hwin as [[_ ->] | [_ ->]]; reflexivity).
      destruct (step_after_winner k (call_world kj) c Hw Hwj Hlast
                  (Hothers i k Hne Hk)) as (k' & -> & Hsame & Hwait).
      simpl. eexists. split; [reflexivity|]. split; simpl.
      { now apply (worlds_after_step ks i k). }
      right. exists j, kj, st.
      split; [now rewrite list_lookup_insert_ne by congruence|].
      split; [exact Hst|]. split; [exact Hwin|].
      intros i' k'' Hne' Hk''.
      destruct (decide (i' = i)) as [->|Hne''].
      * rewrite list_lookup_insert_eq in Hk'' by eauto using lookup_lt_Some.
        now injection Hk'' as <-.
      * rewrite list_lookup_insert_ne in Hk'' by congruence. eauto.
Qed.

Lemma racing_run (schedule : list nat)
    (s : list call * ShenandoahHeapRegionCounters) :
  racing bld flags L rs c0 ws s ->
  exists s', run bld flags L rs schedule s = Ret s'
             /\ racing bld flags L rs c0 ws s'.
Proof.
  revert s. induction schedule as [|i schedule IH]; intros s Hs; simpl.
  - eauto.
  - destruct (racing_step i s Hs) as (s' & -> & Hs'). simpl. now apply IH.
Qed.

End Race.

Lemma count_sampled_none (ks : list call) :
  (forall i k, ks !! i = Some k -> has_sampled k = false) ->
  count_sampled ks = O.
Proof.
  induction ks as [|k ks IH]; intros Hnone; [reflexivity|]. simpl.
  rewrite (Hnone O k eq_refl). simpl. apply IH.
  intros i k' Hk'. now apply (Hnone (S i)).
Qed.

Lemma count_sampled_unique (ks : list call) (j : nat) (kj : call) :
  ks !! j = Some kj ->
  has_sampled kj = true ->
  (forall i k, i <> j -> ks !! i = Some k -> has_sampled k = false) ->
  count_sampled ks = 1%nat.
Proof.
  revert j. induction ks as [|k ks IH]; intros j Hj Hkj Hothers; [discriminate|].
  destruct j as [|j]; simpl in *.
  - injection Hj as ->. rewrite Hkj, count_sampled_none; [reflexivity|].
    intros i k' Hk'. now apply (Hothers (S i)).
  - rewrite (Hothers O k) by (reflexivity || lia). simpl.
    apply (IH j); [assumption..|].
    intros i k' Hne Hk'. apply (Hothers (S i)); [lia | assumption].
Qed.

Lemma waiting_not_sampled (last0 : Z) (winner : option Z) (k : call) :
  waiting last0 winner k -> has_sampled k = false.
Proof.
  unfold waiting, has_sampled. destruct (call_point k) as [|l| |[|]]; tauto.
Qed.

(** When every call has returned, one of them has sampled and the object is
    what that one pass made of it. *)
Lemma racing_finished (bld : build) (flags : Flags) (L : Layout) (rs : Z)
    (c0 c' : ShenandoahHeapRegionCounters) (ws : list World) (ks : list call) :
  racing bld flags L rs c0 ws (ks, c') ->
  ws <> [] ->
  Forall (fun k => has_returned k = true) ks ->
  count_sampled ks = 1%nat
  /\ exists w st,
       w ∈ ws
       /\ encode_heap_status bld (the_heap w) = Ret st
       /\ c' = after_pass flags L rs w st
                 (store_last_sample_millis (current_millis w) c0).
Proof.
  intros [Hws Hphase] Hne Hret. simpl in Hws, Hphase.
  rewrite Forall_lookup in Hret.
  destruct Hphase as [[-> Hall] | (j & kj & st & Hj & Hst & Hwin & Hothers)].
  - destruct ks as [|k ks]; [now subst ws|].
    apply Forall_inv in Hall. specialize (Hret O k eq_refl).
    unfold waiting in Hall. unfold has_returned in Hret.
    destruct (call_point k) as [|l| |[|]]; try discriminate; try tauto.
    now destruct Hall as [? [=]].
  - specialize (Hret j kj Hj). unfold has_returned in Hret.
    destruct Hwin as [[Hpt _] | [Hpt ->]]; [now rewrite Hpt in Hret|].
    split.
    + apply (count_sampled_unique ks j kj Hj).
      * unfold has_sampled. now rewrite Hpt.
      * intros i k Hi Hk. eapply waiting_not_sampled; eauto.
    + exists (call_world kj), st. split; [|now split].
      subst ws. apply list_elem_of_lookup_2 with j.
      now rewrite list_lookup_fmap, Hj.
Qed.

(** *** Every call runs to its end *)

Lemma call_step_progress (bld : build) (flags : Flags) (L : Layout) (rs : Z)
    (k k' : call) (c c' : ShenandoahHeapRegionCounters) :
  call_step bld flags L rs k c = Ret (k', c') ->
  (steps_left k' <= pred (steps_left k))%nat.
Proof.
  unfold call_step, steps_left.
  destruct (call_point k) as [|l| |o] eqn:Hpt.
  - destruct (ShenandoahRegionSampling flags); intros [= <- <-]; simpl; lia.
  - destruct (interval_elapsed flags (current_millis (call_world k)) l).
    + unfold cmpxchg. destruct (_last_sample_millis c =? l);
        intros [= <- <-]; simpl; lia.
    + intros [= <- <-]. simpl. lia.
  - destruct (sampling_pass bld flags L rs (call_world k) c); simpl;
      [intros [= <- <-]; simpl; lia | discriminate].
  - intros [= <- <-]. rewrite Hpt. lia.
Qed.

Lemma schedule_step_progress (bld : build) (flags : Flags) (L : Layout)
    (rs : Z) (i : nat) (s s' : list call * ShenandoahHeapRegionCounters) :
  schedule_step bld flags L rs i s = Ret s' ->
  forall j k, s.1 !! j = Some k ->
    exists k', s'.1 !! j = Some k'
               /\ (steps_left k' <= steps_left k - turns j [i])%nat.
Proof.
  unfold schedule_step. intros Hstep j k Hk. cbn [turns].
  destruct (Nat.eqb_spec i j) as [->|Hne].
  - rewrite Hk in Hstep.
    destruct (call_step bld flags L rs k s.2) as [[k1 c1]|f] eqn:Hcall;
      [|discriminate].
    injection Hstep as <-. simpl.
    exists k1. split; [apply list_lookup_insert_eq; eauto using lookup_lt_Some|].
    pose proof (call_step_progress _ _ _ _ _ _ _ _ Hcall). lia.
  - destruct (s.1 !! i) as [k0|] eqn:Hk0.
    2:{ injection Hstep as <-. exists k. split; [assumption | simpl; lia]. }
    destruct (call_step bld flags L rs k0 s.2) as [[k1 c1]|f] eqn:Hcall;
      [|discriminate].
    injection Hstep as <-. simpl.
    exists k. split; [now rewrite list_lookup_insert_ne | simpl; lia].
Qed.

Lemma run_progress (bld : build) (flags : Flags) (L : Layout) (rs : Z)
    (schedule : list nat) (s s' : list call * ShenandoahHeapRegionCounters) :
  run bld flags L rs schedule s = Ret s' ->
  forall j k, s.1 !! j = Some k ->
    exists k', s'.1 !! j = Some k'
               /\ (steps_left k' <= steps_left k - turns j schedule)%nat.
Proof.
  revert s. induction schedule as [|i schedule IH]; intros s Hrun j k Hk.
  - injection Hrun as <-. exists k. split; [assumption | simpl; lia].
  - simpl in Hrun.
    destruct (schedule_step bld flags L rs i s) as [s1|f] eqn:Hstep;
      [|discriminate].
    simpl in Hrun.
    destruct (schedule_step_progress _ _ _ _ _ _ _ Hstep j k Hk)
      as (k1 & Hk1 & Hle1).
    destruct (IH s1 Hrun j k1 Hk1) as (k' & Hk' & Hle).
    exists k'. split; [assumption|]. cbn [turns] in *. lia.
Qed.

Lemma run_length (bld : build) (flags : Flags) (L : Layout) (rs : Z)
    (schedule : list nat) (s s' : list call * ShenandoahHeapRegionCounters) :
  run bld flags L rs schedule s = Ret s' -> length s'.1 = length s.1.
Proof.
  revert s. induction schedule as [|i schedule IH]; intros s Hrun.
  - now injection Hrun as <-.
  - simpl in Hrun.
    destruct (schedule_step bld flags L rs i s) as [s1|f] eqn:Hstep;
      [|discriminate].
    simpl in Hrun. rewrite (IH s1 Hrun).
    unfold schedule_step in Hstep. destruct (s.1 !! i); [|now injection Hstep as <-].
    destruct (call_step bld flags L rs c s.2); [|discriminate].
    injection Hstep as <-. simpl. apply length_insert.
Qed.

(** A schedule that gives every call three turns leaves no call in flight. *)
Lemma three_turns_return (bld : build) (flags : Flags) (L : Layout) (rs : Z)
    (schedule : list nat) (ws : list World)
    (c0 c' : ShenandoahHeapRegionCounters) (ks : list call) :
  run bld flags L rs schedule (enter <$> ws, c0) = Ret (ks, c') ->
  gives_three_turns schedule (length ws) = true ->
  Forall (fun k => has_returned k = true) ks.
Proof.
  intros Hrun Hfair. apply Forall_lookup. intros j k' Hk'.
  pose proof (run_length _ _ _ _ _ _ _ Hrun) as Hlen. simpl in Hlen.
  rewrite length_fmap in Hlen.
  pose proof (lookup_lt_Some _ _ _ Hk') as Hj. rewrite Hlen in Hj.
  destruct (lookup_lt_is_Some_2 ws j Hj) as [w Hw].
  destruct (run_progress _ _ _ _ _ _ _ Hrun j (enter w)) as (k1 & Hk1 & Hle).
  { simpl. now rewrite list_lookup_fmap, Hw. }
  simpl in Hk1. assert (k1 = k') as -> by congruence.
  unfold gives_three_turns in Hfair. rewrite forallb_forall in Hfair.
  specialize (Hfair j). rewrite in_seq in Hfair.
  assert (Hturns : (3 <= turns j schedule)%nat)
    by (apply Nat.leb_le, Hfair; lia).
  unfold steps_left in Hle. simpl in Hle. unfold has_returned.
  destruct (call_point k'); (reflexivity || lia).
Qed.

(** C4: calls of [update] race within one interval when each of their clock
    values is past the interval since the last sample and no two of them are
    further apart than the sampling rate.  Under any schedule the calls run
    without fault; a call needs at most three turns, and under a schedule
    that gives every call its three turns all calls have returned, exactly
    one of them has sampled, and the object is the result of that single
    pass.  A call whose exchange fails returns at that step, without
    sampling and with the object unchanged, and a call that has returned
    takes no further step. *)
Theorem one_pass_per_interval
    (bld : build) (flags : Flags) (L : Layout) (rs n : Z)
    (c0 : ShenandoahHeapRegionCounters) (ws : list World)
    (schedule : list nat) :
  ShenandoahRegionSampling flags = true ->
  0 <= ShenandoahRegionSamplingRate flags ->
  ready flags n c0 ->
  Forall (samplable bld rs n) ws ->
  Forall (fun w =>
            ShenandoahRegionSamplingRate flags
            < current_millis w - _last_sample_millis c0 < 2 ^ 63) ws ->
  Forall (fun w =>
            Forall (fun w' =>
                      current_millis w - current_millis w'
                      <= ShenandoahRegionSamplingRate flags) ws) ws ->
  (forall k c last,
     call_point k = AtGate last ->
     _last_sample_millis c <> last ->
     call_step bld flags L rs k c
     = Ret ({| call_world := call_world k; call_point := Returned Skipped |}, c))
  /\ (forall k c o,
        call_point k = Returned o -> call_step bld flags L rs k c = Ret (k, c))
  /\ exists ks c',
       run bld flags L rs schedule (enter <$> ws, c0) = Ret (ks, c')
       /\ (ws <> [] ->
           Forall (fun k => has_returned k = true) ks ->
           count_sampled ks = 1%nat
           /\ exists w st,
                w ∈ ws
                /\ encode_heap_status bld (the_heap w) = Ret st
                /\ c' = after_pass flags L rs w st
                          (store_last_sample_millis (current_millis w) c0))
       /\ (gives_three_turns schedule (length ws) = true ->
           Forall (fun k => has_returned k = true) ks
           /\ (ws <> [] ->
               count_sampled ks = 1%nat
               /\ exists w st,
                    w ∈ ws
                    /\ encode_heap_status bld (the_heap w) = Ret st
                    /\ c' = after_pass flags L rs w st
                              (store_last_sample_millis (current_millis w) c0)
                    /\ history c'
                       = history c0 ++ pass_events flags L rs w st)).
Proof.
  intros Hon Hrate Hready Hsam Hpast Hnear.
  split; [|split].
  - intros k c last Hpt Hlast. unfold call_step. rewrite Hpt.
    destruct (interval_elapsed flags (current_millis (call_world k)) last);
      [|reflexivity].
    unfold cmpxchg. now destruct (Z.eqb_spec (_last_sample_millis c) last).
  - intros k c o Hpt. unfold call_step. now rewrite Hpt.
  - assert (Hnear' : forall w w', w ∈ ws -> w' ∈ ws ->
              current_millis w - current_millis w'
              <= ShenandoahRegionSamplingRate flags).
    { intros w w' Hw Hw'. rewrite Forall_forall in Hnear.
      specialize (Hnear w Hw). rewrite Forall_forall in Hnear. auto. }
    destruct (racing_run bld flags L rs n c0 ws Hon Hrate Hready Hsam Hpast
                Hnear' schedule (enter <$> ws, c0))
      as ([ks c'] & Hrun & Hrace); [apply racing_start|].
    exists ks, c'. split; [exact Hrun|]. split.
    + intros Hne Hret. now apply (racing_finished bld flags L rs c0 c' ws ks).
    + intros Hfair.
      pose proof (three_turns_return _ _ _ _ _ _ _ _ _ Hrun Hfair) as Hret.
      split; [exact Hret|]. intros Hne.
      destruct (racing_finished bld flags L rs c0 c' ws ks Hrace Hne Hret)
        as (Hone & w & st & Hw & Hst & Hc').
      split; [exact Hone|]. exists w, st.
      split; [exact Hw|]. split; [exact Hst|]. split; [exact Hc'|].
      now rewrite Hc'.
Qed.

(** ** The theorems at the sample inputs *)

Lemma example_counters_constructed :
  construct example_flags 100 (example_heap false) = Ret example_counters.
Proof. reflexivity. Qed.

Lemma example_layout_ok : layout_ok reference_layout = true.
Proof. reflexivity. Qed.

Lemma example_ready : ready example_flags 4 example_counters.
Proof. unfold ready. simpl. eauto. Defined.

Lemma example_samplable (now : Z) : samplable Debug 100 4 (example_world now).
Proof. unfold samplable. repeat split; reflexivity. Defined.

(** An idle heap with marking, old marking, degenerated and full all
    reported encodes as 0. *)
Lemma idle_status_is_zero_witness :
  encode_heap_status Debug (example_heap true) = Ret 0.
Proof. apply idle_status_is_zero. reflexivity. Defined.

(** Marking alone in progress gives ordinal 1. *)
Lemma encode_phase_precedence_witness :
  encode_phase Debug (example_heap false) = Ret 1.
Proof.
  exact (proj1 (proj2 (proj2 (encode_phase_precedence Debug (example_heap false))))
           eq_refl eq_refl eq_refl).
Defined.

(** OLD generation, marking, old marking: the word is 196, its OLD lane
    reads 1 and bit 2 is set. *)
Lemma generational_status_lanes_witness :
  exists w,
    encode_heap_status Debug (example_heap false) = Ret w
    /\ w = 196
    /\ (get_generation_shift GLOBAL = 0 /\ get_generation_shift OLD = 2
        /\ get_generation_shift YOUNG = 4)
    /\ (true = true -> Z.testbit w 2 = true)
    /\ (OLD <> OLD -> status_lane w 2 = 1)
    /\ (OLD = OLD -> status_lane w 2 = 1)
    /\ (OLD = OLD -> 1 = 1 -> true = true ->
        status_lane w 2 = 1 /\ Z.testbit w 2 = true).
Proof.
  apply (generational_status_lanes Debug (example_heap false) OLD 1);
    reflexivity.
Defined.

Lemma degenerated_and_full_bits_witness :
  (status_defined Debug (example_heap false) = true ->
   exists w, encode_heap_status Debug (example_heap false) = Ret w)
  /\ (forall w, encode_heap_status Debug (example_heap false) = Ret w ->
      Z.testbit w 6 = true /\ Z.testbit w 7 = true
      /\ exists low, 0 <= low < 2 ^ 6 /\ w = low + 2 ^ 6 + 2 ^ 7).
Proof.
  apply (degenerated_and_full_bits Debug (example_heap false)). reflexivity.
Defined.

(** 30 ms after the last sample, at a rate of 40 ms, nothing happens. *)
Lemma update_within_interval_skips_witness :
  exists c',
    update Debug example_flags reference_layout 100 (example_world 30)
      example_counters = Ret (c', Skipped)
    /\ c' = example_counters
    /\ _last_sample_millis c' = 0
    /\ history c' = [].
Proof.
  apply (update_within_interval_skips Debug example_flags reference_layout 100
           (example_world 30) example_counters).
  - reflexivity.
  - vm_compute. discriminate.
Defined.

Lemma sampling_pass_order_witness :
  exists st c',
    encode_heap_status Debug (example_heap false) = Ret st
    /\ update Debug example_flags reference_layout 100 (example_world 100)
         example_counters = Ret (c', Sampled)
    /\ history c'
       = [SetStatus st; SetTimestamp 777; LockHeap]
         ++ region_writes reference_layout 100 0 example_regions
         ++ [WriteSnapshot
               {| snap_regions :=
                    map (region_data reference_layout 100) example_regions;
                  snap_timestamp := 777;
                  snap_status := st;
                  snap_num_regions := 4;
                  snap_region_size := 100 |}]
         ++ [UnlockHeap]
    /\ written_indices (region_writes reference_layout 100 0 example_regions)
       = seqZ 0 4.
Proof.
  apply (sampling_pass_order Debug example_flags reference_layout 100 4
           (example_world 100) example_counters).
  - reflexivity.
  - reflexivity.
  - exact example_ready.
  - exact (example_samplable 100).
Defined.

(** The second region holds 250 bytes of a capacity of 100: the ratio 250 is
    written as 250 mod 128 = 122. *)
Lemma ratios_written_by_update_witness :
  exists c' word,
    update Debug example_flags reference_layout 100 (example_world 100)
      example_counters = Ret (c', Sampled)
    /\ _regions_data c' !! 1%nat = Some word
    /\ ratio_round_trip reference_layout word 0 (100 * 250 / 100)
    /\ ratio_round_trip reference_layout word 7 (100 * 0 / 100)
    /\ ratio_round_trip reference_layout word 14 (100 * 0 / 100)
    /\ ratio_round_trip reference_layout word 21 (100 * 0 / 100)
    /\ ratio_round_trip reference_layout word 35 (100 * 0 / 100)
    /\ ratio_round_trip reference_layout word 28 (100 * 0 / 100).
Proof.
  apply (ratios_written_by_update Debug example_flags reference_layout 100 4
           (example_world 100) example_counters 1 (example_region 250 0)).
  - reflexivity.
  - reflexivity.
  - reflexivity.
  - exact example_ready.
  - exact (example_samplable 100).
  - reflexivity.
  - repeat constructor; simpl; lia.
Defined.

Lemma region_word_round_trip_witness :
  let r := example_region 50 25 in
  let w := region_data reference_layout 100 r in
  decode_field w 51 0x1f = 3
  /\ decode_field w 56 0x03 = 1
  /\ decode_field w 58 0x3f = 2
  /\ ratio_round_trip reference_layout w 0 (percent 50 100)
  /\ ratio_round_trip reference_layout w 7 (percent 25 100)
  /\ ratio_round_trip reference_layout w 14 (percent 0 100)
  /\ ratio_round_trip reference_layout w 21 (percent 0 100)
  /\ ratio_round_trip reference_layout w 35 (percent 0 100)
  /\ ratio_round_trip reference_layout w 28 (percent 0 100).
Proof.
  apply (region_word_round_trip reference_layout 100 (example_region 50 25)).
  - reflexivity.
  - unfold valid_sample, is_size_t. simpl.
    repeat split; repeat constructor; simpl; lia.
Defined.


(** In that life the first, second and fourth call sample, and the indices
    written are 0 to 3, then 0 to 2, then 0 to 3. *)
Lemma example_lifetime :
  match sampled_worlds Debug example_flags reference_layout 100
          [example_world 100; example_small_world 200; example_world 210;
           example_world 300] example_counters,
        updates Debug example_flags reference_layout 100
          [example_world 100; example_small_world 200; example_world 210;
           example_world 300] example_counters with
  | Ret sampled, Ret c' =>
      Some (current_millis <$> sampled, written_indices (history c'))
  | _, _ => None
  end
  = Some ([100; 200; 300], [0; 1; 2; 3; 0; 1; 2; 0; 1; 2; 3]).
Proof. vm_compute. reflexivity. Qed.

(** Three calls, two with the same clock, interleaved step by step: every
    call gets its three turns, all return, one has sampled. *)
Lemma one_pass_per_interval_witness :
  exists ks c',
    run Debug example_flags reference_layout 100
      [O; 1; 2; 2; 1; O; 1; O; 2]%nat
      (enter <$> [example_world 100; example_world 100; example_world 120],
       example_counters) = Ret (ks, c')
    /\ Forall (fun k => has_returned k = true) ks
    /\ count_sampled ks = 1%nat
    /\ exists w st,
         w ∈ [example_world 100; example_world 100; example_world 120]
         /\ encode_heap_status Debug (the_heap w) = Ret st
         /\ c' = after_pass example_flags reference_layout 100 w st
                   (store_last_sample_millis (current_millis w)
                      example_counters)
         /\ history c'
            = history example_counters
              ++ pass_events example_flags reference_layout 100 w st.
Proof.
  destruct (one_pass_per_interval Debug example_flags reference_layout 100 4
              example_counters
              [example_world 100; example_world 100; example_world 120]
              [O; 1; 2; 2; 1; O; 1; O; 2]%nat)
    as (_ & _ & ks & c' & Hrun & _ & Hfair).
  - reflexivity.
  - simpl. lia.
  - exact example_ready.
  - repeat constructor.
  - repeat constructor; simpl; lia.
  - repeat constructor; simpl; lia.
  - destruct (Hfair eq_refl) as [Hret Hone].
    destruct Hone as [Hcount Hpub]; [discriminate|].
    exists ks, c'. split; [exact Hrun|]. split; [exact Hret|].
    split; [exact Hcount | exact Hpub].
Defined.

(** In that run the third call wins and the two others return without
    sampling. *)
Lemma example_race_outcome :
  run Debug example_flags reference_layout 100
    [O; 1; 2; 2; 1; O; 1; O; 2]%nat
    (enter <$> [example_world 100; example_world 100; example_world 120],
     example_counters)
  = Ret ({| call_world := example_world 100; call_point := Returned Skipped |}
         :: {| call_world := example_world 100; call_point := Returned Skipped |}
         :: {| call_world := example_world 120; call_point := Returned Sampled |}
         :: [],
         after_pass example_flags reference_layout 100 (example_world 120) 196
           (store_last_sample_millis 120 example_counters)).
Proof. vm_compute. reflexivity. Qed.

(** * Further properties *)

(** ** The status word *)

(** X1: [encode_heap_status] returns a word exactly when the heap is idle,
    or a phase is in progress (a product build does not check) and a
    generational heap has an active generation.  Otherwise a debug build
    stops at the assert that fails first, and a product build, which gets
    past a missing phase, stops at the missing generation. *)
Theorem encode_heap_status_returns_iff (bld : build) (heap : ShenandoahHeap) :
  ((exists w, encode_heap_status bld heap = Ret w)
   <-> status_defined bld heap = true)
  /\ (is_idle heap = false -> phase_in_progress heap = false ->
      encode_heap_status Debug heap = Abort (AssertFailed "What is it doing?"))
  /\ (is_idle heap = false ->
      phase_in_progress heap = true \/ bld = Product ->
      mode_is_generational heap = true -> active_generation heap = None ->
      encode_heap_status bld heap
      = Abort match bld with
              | Debug => AssertFailed "Expected active generation in this mode."
              | Product => NullPointer
              end).
Proof.
  split; [split|split].
  - intros [w Hw]. unfold status_defined.
    unfold encode_heap_status in Hw.
    destruct (is_idle heap) eqn:Hidle; [reflexivity|]. simpl.
    unfold encode_phase, phase_in_progress in *.
    destruct (is_evacuation_in_progress heap),
      (is_update_refs_in_progress heap),
      (is_concurrent_mark_in_progress heap), (mode_is_generational heap),
      (active_generation heap), bld; simpl in *;
      rewrite ?Hidle in Hw; simpl in Hw; congruence.
  - apply status_defined_returns.
  - intros Hidle Hph. unfold encode_heap_status, encode_phase.
    unfold phase_in_progress in Hph.
    apply orb_false_elim in Hph as [[Hev Hup]%orb_false_elim Hmk].
    rewrite Hidle, Hev, Hup, Hmk. simpl.
    now destruct (mode_is_generational heap).
  - intros Hidle Hph Hgen Hact. unfold encode_heap_status.
    rewrite Hidle, Hgen, Hact. simpl.
    destruct (encode_phase_defined bld heap Hidle) as [p ->].
    + destruct Hph as [-> | ->]; [reflexivity | apply orb_true_r].
    + now destruct bld.
Qed.

(** X2: on a heap that is not generational and not idle the status word is
    the phase ordinal plus 64 for a degenerated cycle plus 128 for a full
    collection; the old-mark flag and the active generation play no part. *)
Theorem non_generational_status
    (bld : build) (heap : ShenandoahHeap) (p : Z) :
  is_idle heap = false ->
  mode_is_generational heap = false ->
  encode_phase bld heap = Ret p ->
  encode_heap_status bld heap
  = Ret (p + (if is_degenerated_gc_in_progress heap then 64 else 0)
           + (if is_full_gc_in_progress heap then 128 else 0)).
Proof.
  intros Hidle Hgen Hp.
  pose proof (encode_phase_range _ _ _ Hp) as Hrange.
  unfold encode_heap_status. rewrite Hidle, Hgen, Hp. simpl.
  unfold flag_bit.
  destruct (is_degenerated_gc_in_progress heap), (is_full_gc_in_progress heap);
    destruct Hrange as [-> | [-> | [-> | ->]]]; reflexivity.
Qed.

(** X3: every status word fits eight bits. *)
Theorem status_word_is_a_byte (bld : build) (heap : ShenandoahHeap) (w : Z) :
  encode_heap_status bld heap = Ret w -> 0 <= w < 2 ^ 8.
Proof.
  unfold encode_heap_status.
  destruct (is_idle heap); [intros [= <-]; lia|].
  destruct (encode_phase bld heap) as [p|f] eqn:Hp.
  2:{ destruct (mode_is_generational heap); discriminate. }
  pose proof (encode_phase_range _ _ _ Hp) as Hrange.
  destruct (mode_is_generational heap); simpl.
  - destruct (active_generation heap) as [g|]; simpl.
    2:{ destruct bld; discriminate. }
    intros [= <-]. unfold flag_bit.
    destruct (is_concurrent_old_mark_in_progress heap),
      (is_degenerated_gc_in_progress heap), (is_full_gc_in_progress heap), g;
      destruct Hrange as [-> | [-> | [-> | ->]]]; vm_compute; split; congruence.
  - intros [= <-]. unfold flag_bit.
    destruct (is_degenerated_gc_in_progress heap), (is_full_gc_in_progress heap);
      destruct Hrange as [-> | [-> | [-> | ->]]]; vm_compute; split; congruence.
Qed.

(** X4: with the YOUNG or the GLOBAL generation active, everything that went
    into a status word can be read back: the lane of the generation holds the
    phase, bit 2 is the old-mark flag, bits 6 and 7 are the degenerated and
    full flags, and no other bit below 6 is set. *)
Theorem status_read_back
    (bld : build) (heap : ShenandoahHeap) (g : GenerationMode) (p : Z) :
  is_idle heap = false ->
  mode_is_generational heap = true ->
  active_generation heap = Some g ->
  g <> OLD ->
  encode_phase bld heap = Ret p ->
  exists w,
    encode_heap_status bld heap = Ret w
    /\ status_lane w (get_generation_shift g) = p
    /\ Z.testbit w 2 = is_concurrent_old_mark_in_progress heap
    /\ Z.testbit w 6 = is_degenerated_gc_in_progress heap
    /\ Z.testbit w 7 = is_full_gc_in_progress heap
    /\ Z.testbit w 3 = false
    /\ status_lane w (match g with YOUNG => 0 | _ => 4 end) = 0.
Proof.
  intros Hidle Hgen Hact Hg Hp.
  pose proof (encode_phase_range _ _ _ Hp) as Hrange.
  unfold encode_heap_status. rewrite Hidle, Hgen, Hp, Hact. simpl.
  eexists; split; [reflexivity|].
  unfold flag_bit, status_lane.
  destruct (is_concurrent_old_mark_in_progress heap),
    (is_degenerated_gc_in_progress heap), (is_full_gc_in_progress heap), g;
    try congruence;
    destruct Hrange as [-> | [-> | [-> | ->]]]; repeat split.
Qed.

(** X5: with the OLD generation active the old-mark bit falls into the lane
    of the phase.  Two such heaps get the same status word exactly when they
    agree on the degenerated flag, on the full flag and on the bitwise or of
    phase ordinal and old-mark flag; so marking reads the same with and
    without old marking, and evacuation with old marking reads as
    update-references. *)
Theorem old_lane_collisions
    (bld : build) (h1 h2 : ShenandoahHeap) (p1 p2 : Z) :
  is_idle h1 = false -> is_idle h2 = false ->
  mode_is_generational h1 = true -> mode_is_generational h2 = true ->
  active_generation h1 = Some OLD -> active_generation h2 = Some OLD ->
  encode_phase bld h1 = Ret p1 -> encode_phase bld h2 = Ret p2 ->
  exists w1 w2,
    encode_heap_status bld h1 = Ret w1
    /\ encode_heap_status bld h2 = Ret w2
    /\ (w1 = w2 <->
        Z.lor p1 (Z.b2z (is_concurrent_old_mark_in_progress h1))
        = Z.lor p2 (Z.b2z (is_concurrent_old_mark_in_progress h2))
        /\ is_degenerated_gc_in_progress h1 = is_degenerated_gc_in_progress h2
        /\ is_full_gc_in_progress h1 = is_full_gc_in_progress h2).
Proof.
  intros Hi1 Hi2 Hg1 Hg2 Ha1 Ha2 Hp1 Hp2.
  pose proof (encode_phase_range _ _ _ Hp1) as Hr1.
  pose proof (encode_phase_range _ _ _ Hp2) as Hr2.
  unfold encode_heap_status.
  rewrite Hi1, Hi2, Hg1, Hg2, Hp1, Hp2, Ha1, Ha2. simpl.
  do 2 eexists. split; [reflexivity|]. split; [reflexivity|].
  unfold flag_bit.
  destruct (is_concurrent_old_mark_in_progress h1),
    (is_degenerated_gc_in_progress h1), (is_full_gc_in_progress h1),
    (is_concurrent_old_mark_in_progress h2),
    (is_degenerated_gc_in_progress h2), (is_full_gc_in_progress h2);
    destruct Hr1 as [-> | [-> | [-> | ->]]];
    destruct Hr2 as [-> | [-> | [-> | ->]]];
    vm_compute; split; (intuition congruence).
Qed.

(** ** update in the two builds, and in a row *)

Lemma encode_heap_status_product (heap : ShenandoahHeap) (w : Z) :
  encode_heap_status Debug heap = Ret w ->
  encode_heap_status Product heap = Ret w.
Proof.
  unfold encode_heap_status, encode_phase.
  destruct (is_idle heap); [trivial|].
  destruct (is_evacuation_in_progress heap); [|
  destruct (is_update_refs_in_progress heap); [|
  destruct (is_concurrent_mark_in_progress heap)]];
    destruct (mode_is_generational heap), (active_generation heap);
    simpl; congruence.
Qed.

(** X6: the asserts only remove runs.  Whatever a debug build publishes, a
    product build publishes too: the status word is the same, and so is the
    object [update] leaves behind. *)
Theorem product_build_agrees
    (flags : Flags) (L : Layout) (rs : Z) (w : World)
    (c : ShenandoahHeapRegionCounters)
    (r : ShenandoahHeapRegionCounters * SampleOutcome) :
  update Debug flags L rs w c = Ret r ->
  update Product flags L rs w c = Ret r
  /\ forall st, encode_heap_status Debug (the_heap w) = Ret st ->
                encode_heap_status Product (the_heap w) = Ret st.
Proof.
  intros Hdebug. split; [|apply encode_heap_status_product].
  revert Hdebug. unfold update.
  destruct (ShenandoahRegionSampling flags); [|trivial].
  destruct (interval_elapsed flags (current_millis w) (_last_sample_millis c));
    [|trivial].
  unfold cmpxchg. rewrite Z.eqb_refl. unfold sampling_pass.
  destruct (encode_heap_status Debug (the_heap w)) as [st|f] eqn:Hst;
    [|discriminate].
  now rewrite (encode_heap_status_product _ _ Hst).
Qed.

(** X7: a call that samples moves [_last_sample_millis] to its own clock, and
    any later call whose clock is within the sampling rate of that one is
    skipped and changes nothing; with a rate that is not negative this
    includes a second call at the same clock value. *)
Theorem sample_then_skip
    (bld : build) (flags : Flags) (L : Layout) (rs n : Z)
    (w w' : World) (c : ShenandoahHeapRegionCounters) :
  ShenandoahRegionSampling flags = true ->
  interval_elapsed flags (current_millis w) (_last_sample_millis c) = true ->
  ready flags n c ->
  samplable bld rs n w ->
  jlong (current_millis w' - current_millis w)
  <= ShenandoahRegionSamplingRate flags ->
  exists c1,
    update bld flags L rs w c = Ret (c1, Sampled)
    /\ _last_sample_millis c1 = current_millis w
    /\ update bld flags L rs w' c1 = Ret (c1, Skipped)
    /\ (0 <= ShenandoahRegionSamplingRate flags ->
        update bld flags L rs w c1 = Ret (c1, Skipped)).
Proof.
  intros Hon Hel Hready Hsam Hnear.
  destruct (status_defined_returns bld (the_heap w)) as [st Hst];
    [apply Hsam|].
  eexists. split; [now apply (update_sampled bld flags L rs n st)|].
  split; [reflexivity|]. split.
  - apply update_skipped. right. now apply interval_elapsed_false.
  - intros Hrate. apply update_skipped. right. apply interval_elapsed_false.
    simpl. now rewrite Z.sub_diag.
Qed.

(** X8: after a pass the counters hold the heap as it is now and nothing of
    what they held before: the status and timestamp counters hold the new
    status word and [os::elapsed_counter()], and region variable [i] holds
    the word of region [i], for every [i]; the two constants stay. *)
Theorem pass_publishes_the_heap
    (bld : build) (flags : Flags) (L : Layout) (rs n : Z)
    (w : World) (c : ShenandoahHeapRegionCounters) :
  ShenandoahRegionSampling flags = true ->
  interval_elapsed flags (current_millis w) (_last_sample_millis c) = true ->
  ready flags n c ->
  samplable bld rs n w ->
  exists st c',
    encode_heap_status bld (the_heap w) = Ret st
    /\ update bld flags L rs w c = Ret (c', Sampled)
    /\ _status c' = Some st
    /\ _timestamp c' = Some (elapsed_counter w)
    /\ (forall i : nat,
          _regions_data c' !! i
          = region_data L rs <$> regions (the_heap w) !! i)
    /\ max_regions c' = max_regions c
    /\ region_size c' = region_size c.
Proof.
  intros Hon Hel Hready Hsam.
  destruct (status_defined_returns bld (the_heap w)) as [st Hst];
    [apply Hsam|].
  exists st. eexists. split; [exact Hst|].
  split; [now apply (update_sampled bld flags L rs n st)|].
  simpl. repeat split. intros i. apply list_lookup_fmap.
Qed.

(** ** A sampler's log *)

Lemma samplable_is_upto (bld : build) (rs n : Z) (w : World) :
  samplable bld rs n w -> samplable_upto bld rs n w.
Proof.
  intros (Hdef & Hn & Hfit & Hrs). repeat split; try assumption; lia.
Qed.

Lemma logged_snapshots_lifetime (bld : build) (flags : Flags) (L : Layout)
    (rs : Z) (sampled : list World) :
  logged_snapshots (lifetime_events bld flags L rs sampled)
  = (if ShenandoahLogRegionSampling flags
     then (fun w => pass_snapshot L rs w (status_of bld w)) <$> sampled
     else []).
Proof.
  induction sampled as [|w sampled IH].
  - now destruct (ShenandoahLogRegionSampling flags).
  - rewrite lifetime_events_cons, logged_snapshots_app, IH.
    destruct (pass_events_logged flags L rs (status_of bld w) w) as [-> _].
    now destruct (ShenandoahLogRegionSampling flags).
Qed.

Lemma status_writes_lifetime (bld : build) (flags : Flags) (L : Layout)
    (rs : Z) (sampled : list World) :
  status_writes (lifetime_events bld flags L rs sampled)
  = status_of bld <$> sampled.
Proof.
  induction sampled as [|w sampled IH]; [reflexivity|].
  rewrite lifetime_events_cons, status_writes_app, IH.
  destruct (pass_events_logged flags L rs (status_of bld w) w) as [_ ->].
  reflexivity.
Qed.

(** X9: over the life of a sampler the log file holds one snapshot for each
    call of [update] that sampled, in call order, and nothing else: the
    snapshot of a call carries the region words, the timestamp and the
    status word of that call's pass, exactly N region words, the region
    count N and the region size; with log output disabled there is no log
    file and no snapshot is ever handed over. *)
Theorem log_follows_passes
    (bld : build) (flags : Flags) (L : Layout) (rs : Z)
    (heap0 : ShenandoahHeap) (ws : list World) :
  UsePerfData flags = true ->
  ShenandoahRegionSampling flags = true ->
  num_regions heap0 < 2 ^ 32 ->
  Forall (samplable bld rs (num_regions heap0)) ws ->
  exists c0 c' sampled,
    construct flags rs heap0 = Ret c0
    /\ updates bld flags L rs ws c0 = Ret c'
    /\ sampled_worlds bld flags L rs ws c0 = Ret sampled
    /\ _log_file c'
       = (if ShenandoahLogRegionSampling flags
          then Some (logged_snapshots (history c')) else None)
    /\ logged_snapshots (history c')
       = (if ShenandoahLogRegionSampling flags
          then (fun w => pass_snapshot L rs w (status_of bld w)) <$> sampled
          else [])
    /\ Forall (fun s =>
                 Z.of_nat (length (snap_regions s)) = num_regions heap0
                 /\ snap_num_regions s = num_regions heap0
                 /\ snap_region_size s = rs)
         (logged_snapshots (history c'))
    /\ length (logged_snapshots (history c'))
       = (if ShenandoahLogRegionSampling flags
          then length (status_writes (history c')) else O)
    /\ length (status_writes (history c')) = length sampled.
Proof.
  intros Hperf Hon Hfit Hws.
  destruct (construct_ready flags rs heap0 Hperf Hon Hfit)
    as (c0 & Hc0 & Hready & _ & _ & Hhist0).
  assert (Hlog0 : _log_file c0
                  = (if ShenandoahLogRegionSampling flags
                     then Some [] else None)).
  { unfold construct in Hc0. rewrite Hperf, Hon in Hc0. simpl in Hc0.
    destruct (uint_for _ _ _ _ _); [|discriminate].
    injection Hc0 as <-. reflexivity. }
  assert (Hupto : Forall (samplable_upto bld rs (num_regions heap0)) ws)
    by (eapply Forall_impl; [exact Hws | apply samplable_is_upto]).
  destruct (updates_unfold bld flags L rs _ ws c0 Hupto Hready)
    as (c' & sampled & Hrun & Hsw & _ & HP & Hh & Hl).
  rewrite Hhist0 in Hh. simpl in Hh.
  pose proof (logged_snapshots_lifetime bld flags L rs sampled) as Hlogged.
  pose proof (status_writes_lifetime bld flags L rs sampled) as Hstatus.
  rewrite <- Hh in Hlogged, Hstatus, Hl.
  exists c0, c', sampled.
  split; [exact Hc0|]. split; [exact Hrun|]. split; [exact Hsw|].
  split; [|split; [exact Hlogged|split; [|split]]].
  - rewrite Hl, Hlog0. now destruct (ShenandoahLogRegionSampling flags).
  - rewrite Hlogged.
    destruct (ShenandoahLogRegionSampling flags); [|constructor].
    apply Forall_fmap. apply (HP _) in Hws.
    eapply Forall_impl; [exact Hws|].
    intros w (_ & Hn & _). unfold pass_snapshot. simpl.
    rewrite length_map. unfold num_regions in Hn. now repeat split.
  - rewrite Hlogged, Hstatus.
    destruct (ShenandoahLogRegionSampling flags); [|reflexivity].
    now rewrite !length_fmap.
  - rewrite Hstatus. apply length_fmap.
Qed.

(** ** The region word, outside the valid samples *)

(** X10: a bit of the 64 that belongs to no lane of the layout is 0 in every
    region word, whatever the region holds. *)
Theorem unused_bits_are_zero
    (L : Layout) (rs : Z) (r : ShenandoahHeapRegion) (n : Z) :
  layout_ok L = true ->
  0 <= n < 64 ->
  Forall (fun l => n < l.1 \/ l.1 + width l.2 <= n) (lanes L) ->
  Z.testbit (region_data L rs r) n = false.
Proof.
  intros Hok Hn Hout. rewrite region_data_bit by assumption.
  apply not_true_is_false. intros (f & Hin & Hbit)%existsb_exists.
  apply list_elem_of_In in Hin.
  assert (Hlane : f.2 ∈ lanes L).
  { rewrite <- (fields_lanes L rs r). now apply list_elem_of_fmap_2. }
  rewrite Forall_forall in Hout. specialize (Hout _ Hlane).
  unfold lane_bit in Hbit.
  destruct (Z.leb_spec f.2.1 n), (Z.ltb_spec n (f.2.1 + width f.2.2));
    simpl in Hbit; (discriminate || lia).
Qed.

Lemma mod_width_range (v m : Z) :
  is_mask m = true -> 0 <= v mod 2 ^ width m <= m.
Proof.
  intros [Hw Hm]%is_mask_ones.
  pose proof (Z.mod_pos_bound v (2 ^ width m)) as Hb.
  rewrite Z.ones_equiv in Hm.
  assert (0 < 2 ^ width m) by (apply Z.pow_pos_nonneg; lia). lia.
Qed.

Lemma decode_truncates (L : Layout) (rs : Z) (r : ShenandoahHeapRegion)
    (j : nat) (v s m : Z) :
  layout_ok L = true ->
  fields L rs r !! j = Some (v, (s, m)) ->
  decode_field (region_data L rs r) s m = v mod 2 ^ width m
  /\ 0 <= decode_field (region_data L rs r) s m <= m.
Proof.
  intros Hok Hj.
  assert (Hmask : is_mask m = true).
  { apply (lane_ok_is_mask s), (layout_lanes_ok L); [assumption|].
    apply list_elem_of_lookup_2 with j.
    rewrite <- (fields_lanes L rs r), list_lookup_fmap, Hj. reflexivity. }
  rewrite (decode_lane L rs r j v), land_mask_mod by assumption.
  split; [reflexivity | now apply mod_width_range].
Qed.

(** X11: an age, an affiliation or a state ordinal too large for its field
    (or negative) is not an error: the field reads back the value modulo the
    width of the field, within 0 and the mask, and no other field is
    disturbed. *)
Theorem fields_truncate_in_place
    (L : Layout) (rs : Z) (r : ShenandoahHeapRegion) :
  layout_ok L = true ->
  let w := region_data L rs r in
  (decode_field w (AGE_SHIFT L) (AGE_MASK L) = age r mod 2 ^ width (AGE_MASK L)
   /\ 0 <= decode_field w (AGE_SHIFT L) (AGE_MASK L) <= AGE_MASK L)
  /\ (decode_field w (AFFILIATION_SHIFT L) (AFFILIATION_MASK L)
      = affiliation r mod 2 ^ width (AFFILIATION_MASK L)
      /\ 0 <= decode_field w (AFFILIATION_SHIFT L) (AFFILIATION_MASK L)
         <= AFFILIATION_MASK L)
  /\ (decode_field w (STATUS_SHIFT L) (STATUS_MASK L)
      = state_ordinal r mod 2 ^ width (STATUS_MASK L)
      /\ 0 <= decode_field w (STATUS_SHIFT L) (STATUS_MASK L) <= STATUS_MASK L).
Proof.
  intros Hok. cbv zeta.
  split; [now apply (decode_truncates L rs r 6)|].
  split; [now apply (decode_truncates L rs r 7)|].
  now apply (decode_truncates L rs r 8).
Qed.

Lemma percent_within_capacity (raw rs : Z) :
  0 < rs -> 100 * rs < 2 ^ 64 -> 0 <= raw <= rs ->
  percent raw rs = 100 * raw / rs /\ 0 <= 100 * raw / rs <= 100.
Proof.
  intros Hrs Hfit Hraw. split.
  - apply percent_exact; lia.
  - split.
    + apply Z.div_pos; lia.
    + apply Z.div_le_upper_bound; lia.
Qed.

(** X12: for a region whose six byte counts do not exceed the region size,
    and a ratio field that can hold 100, every ratio is between 0 and 100
    and is read back from the region word exactly. *)
Theorem ratios_within_capacity_exact
    (L : Layout) (rs : Z) (r : ShenandoahHeapRegion) :
  layout_ok L = true ->
  100 <= PERCENT_MASK L ->
  0 < rs -> 100 * rs < 2 ^ 64 ->
  Forall (fun raw => 0 <= raw <= rs) (raw_counts r) ->
  Forall2 (fun shift raw =>
             decode_field (region_data L rs r) shift (PERCENT_MASK L)
             = 100 * raw / rs
             /\ 0 <= 100 * raw / rs <= 100)
    [USED_SHIFT L; LIVE_SHIFT L; TLAB_SHIFT L; GCLAB_SHIFT L; PLAB_SHIFT L;
     SHARED_SHIFT L]
    (raw_counts r).
Proof.
  intros Hok Hmask Hrs Hfit Hraw. unfold raw_counts in *.
  repeat match goal with
         | H : Forall _ (_ :: _) |- _ => apply Forall_cons_1 in H as [? H]
         end.
  assert (Hone : forall (j : nat) raw s,
             fields L rs r !! j = Some (percent raw rs, (s, PERCENT_MASK L)) ->
             0 <= raw <= rs ->
             decode_field (region_data L rs r) s (PERCENT_MASK L)
             = 100 * raw / rs
             /\ 0 <= 100 * raw / rs <= 100).
  { intros j raw s Hj Hr.
    destruct (percent_within_capacity raw rs Hrs Hfit Hr) as [Heq Hb].
    split; [|exact Hb]. rewrite <- Heq.
    apply (decode_ratio L rs r j _ s Hok Hj). lia. }
  constructor; [now apply (Hone 0%nat)|].
  constructor; [now apply (Hone 1%nat)|].
  constructor; [now apply (Hone 2%nat)|].
  constructor; [now apply (Hone 3%nat)|].
  constructor; [now apply (Hone 4%nat)|].
  constructor; [now apply (Hone 5%nat) | constructor].
Qed.

(** ** update outside its preconditions *)

Lemma for_each_sample_region_overrun (L : Layout) (heap : ShenandoahHeap)
    (rs : Z) (count k : nat) (c : ShenandoahHeapRegionCounters) :
  (k + count <= length (regions heap))%nat ->
  rs <> 0 ->
  (k <= length (_regions_data c) < k + count)%nat ->
  for_each (sample_region L heap rs) (Z.of_nat k) count c = Abort OutOfBounds.
Proof.
  revert k c. induction count as [|count IH]; intros k c Hk Hrs Hlen; [lia|].
  cbn [for_each].
  destruct (lookup_lt_is_Some_2 (regions heap) k) as [r Hr]; [lia|].
  destruct (decide (k = length (_regions_data c))) as [Heq|Hne].
  - unfold sample_region. rewrite (get_region_lookup heap k r Hr).
    destruct (Z.eqb_spec rs 0); [contradiction|].
    unfold set_region_data.
    destruct (Z.ltb_spec (Z.of_nat k) (Z.of_nat (length (_regions_data c))));
      [lia|].
    now rewrite andb_false_r.
  - rewrite (sample_region_at L heap rs k r c) by (assumption || lia).
    simpl. replace (Z.of_nat k + 1) with (Z.of_nat (S k)) by lia.
    apply IH; [lia | assumption|]. simpl. rewrite length_insert. lia.
Qed.

(** X13: [update] takes the region count from the heap, not from the array
    it fills.  When the heap has more regions than the sampler has region
    variables, a pass sets status and timestamp, fills the variables it has
    and then writes past the end of the array. *)
Theorem more_regions_than_variables
    (bld : build) (flags : Flags) (L : Layout) (rs : Z)
    (w : World) (c : ShenandoahHeapRegionCounters) :
  ShenandoahRegionSampling flags = true ->
  interval_elapsed flags (current_millis w) (_last_sample_millis c) = true ->
  is_Some (_status c) -> is_Some (_timestamp c) ->
  status_defined bld (the_heap w) = true ->
  rs <> 0 ->
  num_regions (the_heap w) < 2 ^ 32 ->
  (length (_regions_data c) < length (regions (the_heap w)))%nat ->
  update bld flags L rs w c = Abort OutOfBounds.
Proof.
  intros Hon Hel [st0 Hst0] [ts0 Hts0] Hdef Hrs Hfit Hlen.
  destruct (status_defined_returns bld (the_heap w) Hdef) as [st Hst].
  unfold update. rewrite Hon, Hel. unfold cmpxchg. rewrite Z.eqb_refl.
  unfold sampling_pass. rewrite Hst. simpl.
  unfold set_status. simpl. rewrite Hst0. simpl.
  unfold set_timestamp. simpl. rewrite Hts0. simpl.
  unfold num_regions in *.
  rewrite (uint_for_for_each _ _ _ 0 (length (regions (the_heap w)))) by lia.
  rewrite (for_each_sample_region_overrun L (the_heap w) rs _ O);
    [reflexivity | simpl; lia | assumption | simpl; lia].
Qed.

(** X14: the constructor creates the counters only when [UsePerfData] and
    [ShenandoahRegionSampling] are both set, and [update] tests only the
    second.  With perf data off and sampling on, the sampler has no counter;
    a call within the interval is still skipped, and the first call past it
    reaches the status counter that was never created. *)
Theorem sampling_without_perf_data
    (bld : build) (flags : Flags) (L : Layout) (rs : Z)
    (heap0 : ShenandoahHeap) (w : World) :
  UsePerfData flags = false ->
  ShenandoahRegionSampling flags = true ->
  exists c0,
    construct flags rs heap0 = Ret c0
    /\ _status c0 = None /\ _timestamp c0 = None /\ _regions_data c0 = []
    /\ _log_file c0 = None
    /\ (interval_elapsed flags (current_millis w) 0 = false ->
        update bld flags L rs w c0 = Ret (c0, Skipped))
    /\ (interval_elapsed flags (current_millis w) 0 = true ->
        status_defined bld (the_heap w) = true ->
        update bld flags L rs w c0 = Abort NullPointer).
Proof.
  intros Hperf Hon. unfold construct. rewrite Hperf. simpl.
  eexists. split; [reflexivity|]. simpl. repeat split.
  - intros Hel. apply update_skipped. now right.
  - intros Hel Hdef. unfold update. simpl. rewrite Hon, Hel.
    unfold cmpxchg. simpl. unfold sampling_pass.
    destruct (status_defined_returns bld (the_heap w) Hdef) as [st ->].
    reflexivity.
Qed.

Lemma updates_disabled (bld : build) (flags : Flags) (L : Layout) (rs : Z)
    (ws : list World) (c : ShenandoahHeapRegionCounters) :
  ShenandoahRegionSampling flags = false ->
  updates bld flags L rs ws c = Ret c.
Proof.
  intros Hoff. induction ws as [|w ws IH]; [reflexivity|].
  simpl. rewrite update_skipped by now left. exact IH.
Qed.

(** X15: with [ShenandoahRegionSampling] off the sampler is inert.  The
    constructor creates no counter and no log file, and no sequence of calls
    of [update] changes the object or records a write, whatever the clock
    and the heap are; a concurrent call returns at its first step. *)
Theorem disabled_sampler_is_inert
    (bld : build) (flags : Flags) (L : Layout) (rs : Z)
    (heap0 : ShenandoahHeap) (ws : list World) :
  ShenandoahRegionSampling flags = false ->
  exists c0,
    construct flags rs heap0 = Ret c0
    /\ _status c0 = None /\ _timestamp c0 = None /\ _log_file c0 = None
    /\ updates bld flags L rs ws c0 = Ret c0
    /\ history c0 = []
    /\ forall w c,
         call_step bld flags L rs (enter w) c
         = Ret ({| call_world := w; call_point := Returned Skipped |}, c).
Proof.
  intros Hoff. unfold construct. rewrite Hoff, andb_false_r.
  eexists. split; [reflexivity|]. simpl. repeat split.
  - now apply updates_disabled.
  - intros w c. unfold call_step, enter. simpl. now rewrite Hoff.
Qed.

(** ** The name of the sampling file *)

(** X16: the log output is created under the value of
    [ShenandoahRegionSamplingFile] whenever that flag is set, the empty
    string included, and under the default name only when the flag is unset.
    An empty flag is replaced by the default after the name has been taken,
    so the replacement reaches the flag and not the log output. *)
Theorem sampling_file_name_spec (flag : option string) :
  (sampling_file_name flag).1 = Some (default default_sampling_file flag)
  /\ ((sampling_file_name flag).1 = Some EmptyString <-> flag = Some EmptyString)
  /\ (flag = Some EmptyString ->
      (sampling_file_name flag).2 = Some default_sampling_file)
  /\ (flag <> Some EmptyString -> (sampling_file_name flag).2 = flag).
Proof.
  destruct flag as [[|a f]|]; unfold sampling_file_name; simpl;
    repeat split; try congruence; try discriminate.
Qed.

(** ** Concurrent calls with arbitrary clocks *)

Section Settled.

Variable bld : build.
Variable flags : Flags.
Variable L : Layout.
Variable rs n : Z.

Lemma elapsed_gap (current last : Z) :
  clock_range current -> clock_range last ->
  interval_elapsed flags current last = true ->
  ShenandoahRegionSamplingRate flags < current - last.
Proof.
  unfold clock_range, interval_elapsed. intros Hc Hl Hel.
  rewrite jlong_small in Hel by lia. now apply Z.ltb_lt.
Qed.

Lemma settled_step (i : nat) (s : list call * ShenandoahHeapRegionCounters) :
  settled bld flags rs n s ->
  exists s',
    schedule_step bld flags L rs i s = Ret s'
    /\ settled bld flags rs n s'
    /\ (_last_sample_millis s'.2 = _last_sample_millis s.2
        \/ exists k,
             s.1 !! i = Some k
             /\ _last_sample_millis s'.2 = current_millis (call_world k)
             /\ ShenandoahRegionSamplingRate flags
                < _last_sample_millis s'.2 - _last_sample_millis s.2).
Proof.
  destruct s as [ks c]. intros (Hready & Hlast & Hall). simpl in *.
  unfold schedule_step. simpl.
  destruct (ks !! i) as [k|] eqn:Hk.
  2:{ exists (ks, c). split; [reflexivity|].
      split; [split; [|split]; assumption | now left]. }
  pose proof Hall as Hall'. rewrite Forall_lookup in Hall'.
  destruct (Hall' i k Hk) as (Hsam & Hcur & Hpt). clear Hall'.
  assert (Hkeep : forall p,
            match p with AtGate l => clock_range l | _ => True end ->
            settled bld flags rs n
              (<[i := {| call_world := call_world k; call_point := p |}]> ks, c)).
  { intros p Hp. split; [|split]; try assumption. simpl.
    apply Forall_insert; [assumption|]. split; [|split]; assumption. }
  unfold call_step.
  destruct (call_point k) as [|l| |o] eqn:Hpoint.
  - destruct (ShenandoahRegionSampling flags); simpl;
      (eexists; split; [reflexivity|]); (split; [|now left]);
      now apply Hkeep.
  - destruct (interval_elapsed flags (current_millis (call_world k)) l)
      eqn:Hel; simpl.
    2:{ eexists; split; [reflexivity|]. split; [now apply Hkeep | now left]. }
    unfold cmpxchg. destruct (Z.eqb_spec (_last_sample_millis c) l) as [Heq|Hne];
      simpl.
    2:{ eexists; split; [reflexivity|]. split; [now apply Hkeep | now left]. }
    eexists; split; [reflexivity|]. simpl. split.
    + split; [|split]; try assumption. simpl.
      apply Forall_insert; [assumption|]. split; [|split]; (assumption || exact I).
    + right. exists k. split; [reflexivity|]. split; [reflexivity|].
      rewrite Heq. now apply elapsed_gap.
  - destruct (status_defined_returns bld (the_heap (call_world k)))
      as [st Hst]; [apply Hsam|].
    rewrite (sampling_pass_spec bld flags L rs n st) by assumption. simpl.
    eexists; split; [reflexivity|]. simpl. split; [|now left].
    split; [apply after_pass_ready; [assumption | apply Hsam]|].
    split; [assumption|]. simpl.
    apply Forall_insert; [assumption|]. split; [|split]; (assumption || exact I).
  - simpl. rewrite list_insert_id by assumption.
    eexists; split; [reflexivity|]. split; [|now left].
    split; [|split]; assumption.
Qed.

Lemma settled_run (schedule : list nat)
    (s : list call * ShenandoahHeapRegionCounters) :
  0 <= ShenandoahRegionSamplingRate flags ->
  settled bld flags rs n s ->
  exists s',
    run bld flags L rs schedule s = Ret s'
    /\ settled bld flags rs n s'
    /\ _last_sample_millis s.2 <= _last_sample_millis s'.2.
Proof.
  intros Hrate. revert s.
  induction schedule as [|i schedule IH]; intros s Hs; simpl.
  - exists s. split; [reflexivity|]. split; [assumption | lia].
  - destruct (settled_step i s Hs) as (s1 & -> & Hs1 & Hgate). simpl.
    destruct (IH s1 Hs1) as (s' & Hrun & Hs' & Hle).
    exists s'. split; [exact Hrun|]. split; [exact Hs'|].
    destruct Hgate as [Heq | (k & _ & _ & Hgap)]; lia.
Qed.

Lemma settled_start (c0 : ShenandoahHeapRegionCounters) (ws : list World) :
  ready flags n c0 ->
  clock_range (_last_sample_millis c0) ->
  Forall (fun w => samplable bld rs n w /\ clock_range (current_millis w)) ws ->
  settled bld flags rs n (enter <$> ws, c0).
Proof.
  intros Hready Hlast Hws. split; [|split]; try assumption. simpl.
  apply Forall_fmap. eapply Forall_impl; [exact Hws|].
  intros w [Hsam Hcur]. simpl. split; [|split]; (assumption || exact I).
Qed.

End Settled.

(** X17: whatever the clocks of concurrent calls are and however they are
    scheduled, no call faults, [_last_sample_millis] never moves back, and a
    step that changes it is the exchange of the stepping call: it moves the
    timestamp to that call's clock, more than the sampling rate past the
    value it replaces.  Two passes are never closer than the rate in clock
    terms. *)
Theorem gate_only_advances
    (bld : build) (flags : Flags) (L : Layout) (rs n : Z)
    (c0 : ShenandoahHeapRegionCounters) (ws : list World)
    (schedule : list nat) (i : nat) :
  0 <= ShenandoahRegionSamplingRate flags ->
  ready flags n c0 ->
  clock_range (_last_sample_millis c0) ->
  Forall (fun w => samplable bld rs n w /\ clock_range (current_millis w)) ws ->
  exists s1 s2,
    run bld flags L rs schedule (enter <$> ws, c0) = Ret s1
    /\ schedule_step bld flags L rs i s1 = Ret s2
    /\ _last_sample_millis c0 <= _last_sample_millis s1.2
    /\ (_last_sample_millis s2.2 = _last_sample_millis s1.2
        \/ exists k,
             s1.1 !! i = Some k
             /\ _last_sample_millis s2.2 = current_millis (call_world k)
             /\ ShenandoahRegionSamplingRate flags
                < _last_sample_millis s2.2 - _last_sample_millis s1.2).
Proof.
  intros Hrate Hready Hlast Hws.
  destruct (settled_run bld flags L rs n schedule (enter <$> ws, c0) Hrate)
    as (s1 & Hrun & Hs1 & Hle); [now apply settled_start|].
  destruct (settled_step bld flags L rs n i s1 Hs1) as (s2 & Hstep & _ & Hgate).
  exists s1, s2. split; [exact Hrun|]. split; [exact Hstep|].
  split; [exact Hle | exact Hgate].
Qed.

(** ** The further properties at the sample inputs *)

(** A generational heap in marking with no active generation. *)
Lemma encode_heap_status_returns_iff_witness :
  encode_heap_status Debug (example_view false false true false true None)
  = Abort (AssertFailed "Expected active generation in this mode.").
Proof.
  exact (proj2 (proj2 (encode_heap_status_returns_iff Debug
                         (example_view false false true false true None)))
           eq_refl (or_introl eq_refl) eq_refl eq_refl).
Defined.

(** Evacuation on a heap that is not generational, old marking reported. *)
Lemma non_generational_status_witness :
  encode_heap_status Debug (example_view true false false true false (Some OLD))
  = Ret (2 + 0 + 0).
Proof.
  apply (non_generational_status Debug
           (example_view true false false true false (Some OLD)) 2);
    reflexivity.
Defined.

Lemma status_word_is_a_byte_witness : 0 <= 196 < 2 ^ 8.
Proof.
  apply (status_word_is_a_byte Debug (example_heap false)). reflexivity.
Defined.

(** Update-references in the YOUNG generation while old marking runs. *)
Lemma status_read_back_witness :
  exists w,
    encode_heap_status Debug
      (example_view false true false true true (Some YOUNG)) = Ret w
    /\ status_lane w 4 = 3
    /\ Z.testbit w 2 = true
    /\ Z.testbit w 6 = false
    /\ Z.testbit w 7 = false
    /\ Z.testbit w 3 = false
    /\ status_lane w 0 = 0.
Proof.
  apply (status_read_back Debug
           (example_view false true false true true (Some YOUNG)) YOUNG 3);
    (reflexivity || discriminate).
Defined.

(** OLD generation: evacuation with old marking against update-references
    without. *)
Lemma old_lane_collisions_witness :
  exists w1 w2,
    encode_heap_status Debug
      (example_view true false false true true (Some OLD)) = Ret w1
    /\ encode_heap_status Debug
         (example_view false true false false true (Some OLD)) = Ret w2
    /\ (w1 = w2 <->
        Z.lor 2 (Z.b2z true) = Z.lor 3 (Z.b2z false)
        /\ false = false /\ false = false).
Proof.
  apply (old_lane_collisions Debug
           (example_view true false false true true (Some OLD))
           (example_view false true false false true (Some OLD)) 2 3);
    reflexivity.
Defined.

Lemma product_build_agrees_witness :
  update Product example_flags reference_layout 100 (example_world 100)
    example_counters
  = Ret (after_pass example_flags reference_layout 100 (example_world 100) 196
           (store_last_sample_millis 100 example_counters), Sampled)
  /\ forall st,
       encode_heap_status Debug (the_heap (example_world 100)) = Ret st ->
       encode_heap_status Product (the_heap (example_world 100)) = Ret st.
Proof.
  apply (product_build_agrees example_flags reference_layout 100
           (example_world 100) example_counters).
  reflexivity.
Defined.

Lemma sample_then_skip_witness :
  exists c1,
    update Debug example_flags reference_layout 100 (example_world 100)
      example_counters = Ret (c1, Sampled)
    /\ _last_sample_millis c1 = 100
    /\ update Debug example_flags reference_layout 100 (example_world 130) c1
       = Ret (c1, Skipped)
    /\ (0 <= 40 ->
        update Debug example_flags reference_layout 100 (example_world 100) c1
        = Ret (c1, Skipped)).
Proof.
  apply (sample_then_skip Debug example_flags reference_layout 100 4
           (example_world 100) (example_world 130) example_counters).
  - reflexivity.
  - reflexivity.
  - exact example_ready.
  - exact (example_samplable 100).
  - vm_compute. discriminate.
Defined.

Lemma pass_publishes_the_heap_witness :
  exists st c',
    encode_heap_status Debug (example_heap false) = Ret st
    /\ update Debug example_flags reference_layout 100 (example_world 100)
         example_counters = Ret (c', Sampled)
    /\ _status c' = Some st
    /\ _timestamp c' = Some 777
    /\ (forall i : nat,
          _regions_data c' !! i
          = region_data reference_layout 100 <$> example_regions !! i)
    /\ max_regions c' = Some 4
    /\ region_size c' = Some 0.
Proof.
  apply (pass_publishes_the_heap Debug example_flags reference_layout 100 4
           (example_world 100) example_counters).
  - reflexivity.
  - reflexivity.
  - exact example_ready.
  - exact (example_samplable 100).
Defined.

Lemma log_follows_passes_witness :
  exists c0 c' sampled,
    construct example_flags 100 (example_heap false) = Ret c0
    /\ updates Debug example_flags reference_layout 100
         [example_world 100; example_world 120; example_world 200] c0 = Ret c'
    /\ sampled_worlds Debug example_flags reference_layout 100
         [example_world 100; example_world 120; example_world 200] c0
       = Ret sampled
    /\ _log_file c' = Some (logged_snapshots (history c'))
    /\ logged_snapshots (history c')
       = (fun w => pass_snapshot reference_layout 100 w (status_of Debug w))
         <$> sampled
    /\ Forall (fun s =>
                 Z.of_nat (length (snap_regions s)) = 4
                 /\ snap_num_regions s = 4
                 /\ snap_region_size s = 100)
         (logged_snapshots (history c'))
    /\ length (logged_snapshots (history c'))
       = length (status_writes (history c'))
    /\ length (status_writes (history c')) = length sampled.
Proof.
  apply (log_follows_passes Debug example_flags reference_layout 100
           (example_heap false)
           [example_world 100; example_world 120; example_world 200]).
  - reflexivity.
  - reflexivity.
  - reflexivity.
  - repeat constructor.
Defined.

(** In that life the first and the third call sample, and the log holds
    their two snapshots. *)
Lemma example_log :
  match sampled_worlds Debug example_flags reference_layout 100
          [example_world 100; example_world 120; example_world 200]
          example_counters,
        updates Debug example_flags reference_layout 100
          [example_world 100; example_world 120; example_world 200]
          example_counters with
  | Ret sampled, Ret c' =>
      Some (current_millis <$> sampled, length <$> _log_file c')
  | _, _ => None
  end
  = Some ([100; 200], Some 2%nat).
Proof. vm_compute. reflexivity. Qed.

(** Bit 45 lies between the ratio fields and the age. *)
Lemma unused_bits_are_zero_witness :
  Z.testbit (region_data reference_layout 100 (example_region 50 25)) 45 = false.
Proof.
  apply (unused_bits_are_zero reference_layout 100 (example_region 50 25) 45).
  - reflexivity.
  - lia.
  - unfold lanes. simpl.
    repeat (apply Forall_cons_2;
            [first [left; vm_compute; reflexivity
                   | right; vm_compute; discriminate]|]).
    apply Forall_nil_2.
Defined.

(** Age 40 in five bits, affiliation 5 in two, state -1 in six. *)
Lemma fields_truncate_in_place_witness :
  let w := region_data reference_layout 100 example_wide_region in
  (decode_field w 51 0x1f = 40 mod 2 ^ width 0x1f
   /\ 0 <= decode_field w 51 0x1f <= 0x1f)
  /\ (decode_field w 56 0x03 = 5 mod 2 ^ width 0x03
      /\ 0 <= decode_field w 56 0x03 <= 0x03)
  /\ (decode_field w 58 0x3f = -1 mod 2 ^ width 0x3f
      /\ 0 <= decode_field w 58 0x3f <= 0x3f).
Proof.
  apply (fields_truncate_in_place reference_layout 100 example_wide_region).
  reflexivity.
Defined.

Lemma ratios_within_capacity_exact_witness :
  Forall2 (fun shift raw =>
             decode_field (region_data reference_layout 100
                             (example_region 50 25)) shift 0x7f
             = 100 * raw / 100
             /\ 0 <= 100 * raw / 100 <= 100)
    [0; 7; 14; 21; 35; 28] [50; 25; 0; 0; 0; 0].
Proof.
  apply (ratios_within_capacity_exact reference_layout 100
           (example_region 50 25)).
  - reflexivity.
  - simpl. lia.
  - lia.
  - lia.
  - repeat constructor; simpl; lia.
Defined.

(** Four regions, two region variables. *)
Lemma more_regions_than_variables_witness :
  update Debug example_flags reference_layout 100 (example_world 100)
    example_short_counters = Abort OutOfBounds.
Proof.
  apply (more_regions_than_variables Debug example_flags reference_layout 100
           (example_world 100) example_short_counters).
  - reflexivity.
  - reflexivity.
  - simpl. eauto.
  - simpl. eauto.
  - reflexivity.
  - lia.
  - reflexivity.
  - simpl. lia.
Defined.

Lemma sampling_without_perf_data_witness :
  exists c0,
    construct (example_flags_with false true) 100 (example_heap false) = Ret c0
    /\ _status c0 = None /\ _timestamp c0 = None /\ _regions_data c0 = []
    /\ _log_file c0 = None
    /\ (interval_elapsed (example_flags_with false true) 100 0 = false ->
        update Debug (example_flags_with false true) reference_layout 100
          (example_world 100) c0 = Ret (c0, Skipped))
    /\ (interval_elapsed (example_flags_with false true) 100 0 = true ->
        status_defined Debug (example_heap false) = true ->
        update Debug (example_flags_with false true) reference_layout 100
          (example_world 100) c0 = Abort NullPointer).
Proof.
  apply (sampling_without_perf_data Debug (example_flags_with false true)
           reference_layout 100 (example_heap false) (example_world 100));
    reflexivity.
Defined.

Lemma disabled_sampler_is_inert_witness :
  exists c0,
    construct (example_flags_with true false) 100 (example_heap false) = Ret c0
    /\ _status c0 = None /\ _timestamp c0 = None /\ _log_file c0 = None
    /\ updates Debug (example_flags_with true false) reference_layout 100
         [example_world 100; example_world 200] c0 = Ret c0
    /\ history c0 = []
    /\ forall w c,
         call_step Debug (example_flags_with true false) reference_layout 100
           (enter w) c
         = Ret ({| call_world := w; call_point := Returned Skipped |}, c).
Proof.
  apply (disabled_sampler_is_inert Debug (example_flags_with true false)
           reference_layout 100 (example_heap false)
           [example_world 100; example_world 200]).
  reflexivity.
Defined.

(** Three calls with clocks 100, 50 and 300; after six steps the next step
    of the third call is looked at. *)
Lemma gate_only_advances_witness :
  exists s1 s2,
    run Debug example_flags reference_layout 100 [O; 1; O; 2; 1; O]%nat
      (enter <$> [example_world 100; example_world 50; example_world 300],
       example_counters) = Ret s1
    /\ schedule_step Debug example_flags reference_layout 100 2 s1 = Ret s2
    /\ 0 <= _last_sample_millis s1.2
    /\ (_last_sample_millis s2.2 = _last_sample_millis s1.2
        \/ exists k,
             s1.1 !! 2%nat = Some k
             /\ _last_sample_millis s2.2 = current_millis (call_world k)
             /\ 40 < _last_sample_millis s2.2 - _last_sample_millis s1.2).
Proof.
  apply (gate_only_advances Debug example_flags reference_layout 100 4
           example_counters
           [example_world 100; example_world 50; example_world 300]
           [O; 1; O; 2; 1; O]%nat 2).
  - simpl. lia.
  - exact example_ready.
  - unfold clock_range. simpl. lia.
  - repeat constructor; unfold clock_range; simpl; lia.
Defined.

(** In that run the first call has sampled at 100 and the third call then
    moves the timestamp on to 300. *)
Lemma example_gate_advance :
  match run Debug example_flags reference_layout 100 [O; 1; O; 2; 1; O]%nat
          (enter <$> [example_world 100; example_world 50; example_world 300],
           example_counters) with
  | Ret s1 =>
      match schedule_step Debug example_flags reference_layout 100 2 s1 with
      | Ret s2 => Some (_last_sample_millis s1.2, _last_sample_millis s2.2)
      | Abort _ => None
      end
  | Abort _ => None
  end = Some (100, 300).
Proof. vm_compute. reflexivity. Qed.

(** ** Passes and the calls that ran them *)

Lemma count_sampled_insert (ks : list call) (i : nat) (k k' : call) :
  ks !! i = Some k ->
  (count_sampled (<[i := k']> ks) + (if has_sampled k then 1 else 0)
   = count_sampled ks + (if has_sampled k' then 1 else 0))%nat.
Proof.
  revert i. induction ks as [|a ks IH]; intros i Hk; [discriminate|].
  destruct i as [|i]; simpl in *.
  - injection Hk as ->. lia.
  - specialize (IH i Hk). lia.
Qed.

Lemma tally_step (bld : build) (flags : Flags) (L : Layout) (rs n : Z)
    (c0 : ShenandoahHeapRegionCounters) (i : nat)
    (s s' : list call * ShenandoahHeapRegionCounters) :
  settled bld flags rs n s ->
  tally c0 s ->
  schedule_step bld flags L rs i s = Ret s' ->
  tally c0 s'.
Proof.
  destruct s as [ks c]. intros (Hready & _ & Hall) Htally. unfold tally in *.
  simpl in *. unfold schedule_step. simpl.
  destruct (ks !! i) as [k|] eqn:Hk; [|now intros [= <-]].
  rewrite Forall_lookup in Hall. destruct (Hall i k Hk) as (Hsam & _ & _).
  assert (Hsame : forall p c',
            has_sampled {| call_world := call_world k; call_point := p |} = false ->
            has_sampled k = false ->
            history c' = history c ->
            length (status_writes (history c'))
            = (length (status_writes (history c0))
               + count_sampled
                   (<[i := {| call_world := call_world k; call_point := p |}]> ks))%nat).
  { intros p c' Hp Hkp ->.
    pose proof (count_sampled_insert ks i k
                  {| call_world := call_world k; call_point := p |} Hk) as Hc.
    rewrite Hp, Hkp in Hc. lia. }
  unfold call_step. unfold has_sampled in Hsame.
  destruct (call_point k) as [|l| |o] eqn:Hpoint.
  - destruct (ShenandoahRegionSampling flags); intros [= <-]; simpl;
      apply Hsame; simpl; rewrite ?Hpoint; reflexivity.
  - destruct (interval_elapsed flags (current_millis (call_world k)) l).
    2:{ intros [= <-]. simpl. apply Hsame; simpl; rewrite ?Hpoint; reflexivity. }
    unfold cmpxchg.
    destruct (_last_sample_millis c =? l); intros [= <-]; simpl;
      apply Hsame; simpl; rewrite ?Hpoint; reflexivity.
  - destruct (status_defined_returns bld (the_heap (call_world k)))
      as [st Hst]; [apply Hsam|].
    rewrite (sampling_pass_spec bld flags L rs n st) by assumption.
    intros [= <-]. simpl.
    destruct (pass_events_logged flags L rs st (call_world k)) as [_ Hps].
    rewrite status_writes_app, Hps, length_app. simpl.
    pose proof (count_sampled_insert ks i k
                  {| call_world := call_world k;
                     call_point := Returned Sampled |} Hk) as Hc.
    unfold has_sampled in Hc. simpl in Hc. rewrite Hpoint in Hc. lia.
  - intros [= <-]. simpl. now rewrite list_insert_id.
Qed.

(** X18: under any schedule and for any clocks, the counters are published
    once for each call that has returned having sampled, and by no other
    call: the number of status writes recorded grows by exactly the number of
    such calls. *)
Theorem one_pass_per_sampled_call
    (bld : build) (flags : Flags) (L : Layout) (rs n : Z)
    (c0 : ShenandoahHeapRegionCounters) (ws : list World)
    (schedule : list nat) :
  ready flags n c0 ->
  clock_range (_last_sample_millis c0) ->
  Forall (fun w => samplable bld rs n w /\ clock_range (current_millis w)) ws ->
  exists ks c',
    run bld flags L rs schedule (enter <$> ws, c0) = Ret (ks, c')
    /\ length (status_writes (history c'))
       = (length (status_writes (history c0)) + count_sampled ks)%nat.
Proof.
  intros Hready Hlast Hws.
  assert (Hgen : forall s,
            settled bld flags rs n s -> tally c0 s ->
            exists s', run bld flags L rs schedule s = Ret s' /\ tally c0 s').
  { induction schedule as [|i schedule IH]; intros s Hs Ht; simpl; [eauto|].
    destruct (settled_step bld flags L rs n i s Hs) as (s1 & Hstep & Hs1 & _).
    rewrite Hstep. simpl. apply IH; [assumption|].
    now apply (tally_step bld flags L rs n c0 i s s1). }
  destruct (Hgen (enter <$> ws, c0)) as ([ks c'] & Hrun & Ht).
  - now apply settled_start.
  - unfold tally. simpl.
    assert (count_sampled (enter <$> ws) = O) as ->; [|lia].
    clear. induction ws as [|w ws IH]; [reflexivity | exact IH].
  - exists ks, c'. split; [exact Hrun | exact Ht].
Qed.

(** Three calls with clocks 100, 50 and 300, each run to its end: two of
    them sample, and the status is written twice. *)
Lemma one_pass_per_sampled_call_witness :
  exists ks c',
    run Debug example_flags reference_layout 100
      [O; 1; O; 2; 1; O; 2; 2]%nat
      (enter <$> [example_world 100; example_world 50; example_world 300],
       example_counters) = Ret (ks, c')
    /\ length (status_writes (history c')) = (0 + count_sampled ks)%nat.
Proof.
  apply (one_pass_per_sampled_call Debug example_flags reference_layout 100 4
           example_counters
           [example_world 100; example_world 50; example_world 300]
           [O; 1; O; 2; 1; O; 2; 2]%nat).
  - exact example_ready.
  - unfold clock_range. simpl. lia.
  - repeat constructor; unfold clock_range; simpl; lia.
Defined.

Lemma example_two_passes :
  match run Debug example_flags reference_layout 100
          [O; 1; O; 2; 1; O; 2; 2]%nat
          (enter <$> [example_world 100; example_world 50; example_world 300],
           example_counters) with
  | Ret s => Some (call_point <$> s.1, length (status_writes (history s.2)))
  | Abort _ => None
  end
  = Some ([Returned Sampled; Returned Skipped; Returned Sampled], 2%nat).
Proof. vm_compute. reflexivity. Qed.
